(** * RKO log aggregation and log parsing: a shallow embedding

    The development follows the two source modules:
    - [LogStrategy.py]: the sinks ([TerminalLogger], [FileLogger],
      [DualLogger]), the [ParallelLogManager] with its listener process, and
      the [WorkerLogger] handed to the workers;
    - [Plots.py]: [HistoryPlotter.parse_log_file].

    Python values are restricted to the picklable scalars that travel through
    the queue; text is ASCII; the process environment (standard streams, file
    system) is an explicit [World] threaded through an exception/state monad. *)

From Stdlib Require Import ZArith Ascii String List Lia Sorted.
From Stdlib Require Import Floats.SpecFloat.
From stdpp Require Import base gmap strings list pretty.

Local Open Scope string_scope.
Local Open Scope list_scope.

(** ** Python values and exceptions *)

Inductive pyval :=
  | PyNone
  | PyBool (b : bool)
  | PyInt (z : Z)
  | PyStr (s : string).

(** [str(v)], as [print] applies it to every positional argument. *)
Definition py_str (v : pyval) : string :=
  match v with
  | PyNone => "None"
  | PyBool true => "True"
  | PyBool false => "False"
  | PyInt z => pretty z
  | PyStr s => s
  end.

Definition py_type_name (v : pyval) : string :=
  match v with
  | PyNone => "NoneType"
  | PyBool _ => "bool"
  | PyInt _ => "int"
  | PyStr _ => "str"
  end.

(** The exception classes the modelled code can meet; all of them derive from
    [Exception].  The argument is the message, [str(e)], in CPython's wording
    where the model needs it; no property depends on a wording but C10 and the
    examples, which quote it. *)
Inductive exn :=
  | TypeError (msg : string)
  | ValueError (msg : string)
  | AttributeError (msg : string)
  | PermissionError (msg : string)
  | FileNotFoundError (msg : string).

Definition exn_str (e : exn) : string :=
  match e with
  | TypeError m | ValueError m | AttributeError m
  | PermissionError m | FileNotFoundError m => m
  end.

Inductive result (A : Type) :=
  | Ok (a : A)
  | Raise (e : exn).
Arguments Ok {A} a.
Arguments Raise {A} e.

Definition is_Ok {A} (r : result A) : bool :=
  match r with Ok _ => true | Raise _ => false end.

(** ** The process environment *)

Definition NL : string := String "010"%char "".

Inductive fileobj :=
  | FStdout
  | FStderr
  | FHandle (path : string).

(** System-level trace of the I/O operations that were attempted. *)
Inductive io_event :=
  | EvWrite (f : fileobj) (text : string)
  | EvWriteFailed (f : fileobj)
  | EvOpen (path : string) (mode : string)
  | EvOpenFailed (path : string) (mode : string).

(** [stdout_closed]: writing to [sys.stdout] raises.  [locked]: paths that
    cannot be opened for writing.  [sys.stderr] is taken to be writable. *)
Record World := mkWorld {
  stdout_closed : bool;
  stdout : string;
  stderr : string;
  files : gmap string string;
  locked : gset string;
  io_log : list io_event
}.

Definition record (ev : io_event) (w : World) : World :=
  mkWorld (stdout_closed w) (stdout w) (stderr w) (files w) (locked w)
          (io_log w ++ [ev]).

Definition set_stdout (s : string) (w : World) : World :=
  mkWorld (stdout_closed w) s (stderr w) (files w) (locked w) (io_log w).

Definition set_stderr (s : string) (w : World) : World :=
  mkWorld (stdout_closed w) (stdout w) s (files w) (locked w) (io_log w).

Definition set_files (fs : gmap string string) (w : World) : World :=
  mkWorld (stdout_closed w) (stdout w) (stderr w) fs (locked w) (io_log w).

(** ** Exceptions and state: the monad the code runs in *)

Definition IO (A : Type) : Type := World -> result A * World.

Definition io_ret {A} (a : A) : IO A := fun w => (Ok a, w).

Definition io_bind {A B} (f : A -> IO B) (m : IO A) : IO B :=
  fun w =>
    match m w with
    | (Ok a, w') => f a w'
    | (Raise e, w') => (Raise e, w')
    end.

Definition raise {A} (e : exn) : IO A := fun w => (Raise e, w).

(** [try: body  except Exception as e: handler(e)] *)
Definition try_except {A} (body : IO A) (handler : exn -> IO A) : IO A :=
  fun w =>
    match body w with
    | (Ok a, w') => (Ok a, w')
    | (Raise e, w') => handler e w'
    end.

#[global] Instance IO_ret : MRet IO := @io_ret.
#[global] Instance IO_bind : MBind IO := @io_bind.

Definition lift {A} (r : result A) : IO A := fun w => (r, w).

(** ** Files and streams *)

(** [f.write(text)] on an open file object. *)
Definition write (f : fileobj) (text : string) : IO unit :=
  fun w =>
    match f with
    | FStdout =>
        if stdout_closed w
        then (Raise (ValueError "I/O operation on closed file."),
              record (EvWriteFailed f) w)
        else (Ok tt, record (EvWrite f text) (set_stdout (stdout w +:+ text) w))
    | FStderr =>
        (Ok tt, record (EvWrite f text) (set_stderr (stderr w +:+ text) w))
    | FHandle path =>
        (Ok tt, record (EvWrite f text)
                  (set_files (<[path := default "" (files w !! path) +:+ text]> (files w)) w))
    end.

(** [open(path, 'w')] and [open(path, 'a')]: both create a missing file, ['w']
    truncates an existing one. *)
Definition open_write (path : string) (mode : string) : IO fileobj :=
  fun w =>
    if decide (path ∈ locked w)
    then (Raise (PermissionError ("[Errno 13] Permission denied: '" +:+ path +:+ "'")),
          record (EvOpenFailed path mode) w)
    else
      let old := if String.eqb mode "w" then "" else default "" (files w !! path) in
      (Ok (FHandle path), record (EvOpen path mode) (set_files (<[path := old]> (files w)) w)).

(** [open(path, 'r')] followed by [f.read()]. *)
Definition read_file (path : string) : IO string :=
  fun w =>
    match files w !! path with
    | Some content => (Ok content, record (EvOpen path "r") w)
    | None =>
        (Raise (FileNotFoundError ("[Errno 2] No such file or directory: '" +:+ path +:+ "'")),
         record (EvOpenFailed path "r") w)
    end.

(** ** The builtin [print] *)

(** A call [f( *args, **kwargs, name=v)]: a keyword that is also a key of
    [kwargs] is rejected before [f] runs. *)
Definition call_with_keyword (fname : string) (kwargs : gmap string pyval)
    (name : string) : result unit :=
  match kwargs !! name with
  | Some _ =>
      Raise (TypeError (fname +:+ "() got multiple values for keyword argument '"
                          +:+ name +:+ "'"))
  | None => Ok tt
  end.

Definition print_keywords : list string := ["sep"; "end"; "file"; "flush"].

Definition print_separator (name : string) (dflt : string) (kwargs : gmap string pyval)
  : result string :=
  match kwargs !! name with
  | None | Some PyNone => Ok dflt
  | Some (PyStr s) => Ok s
  | Some v =>
      Raise (TypeError (name +:+ " must be None or a string, not " +:+ py_type_name v))
  end.

(** What [print] writes: the arguments' [str], joined by [sep], then [end]. *)
Definition print_text (args : list pyval) (kwargs : gmap string pyval) : result string :=
  match print_separator "sep" " " kwargs with
  | Raise e => Raise e
  | Ok sep =>
      match print_separator "end" NL kwargs with
      | Raise e => Raise e
      | Ok end_ => Ok (String.concat sep (map py_str args) +:+ end_)
      end
  end.

(** [print( *args, **kwargs)] where [file] is the file object the call site
    passed itself, if any; otherwise the [file] keyword of [kwargs] decides
    ([None] or absent: [sys.stdout]; a scalar has no [write] method). *)
Definition builtin_print (args : list pyval) (kwargs : gmap string pyval)
    (file : option fileobj) : IO unit :=
  if negb (forallb (fun k => bool_decide (k ∈ print_keywords)) (map fst (map_to_list kwargs)))
  then raise (TypeError "print() got an unexpected keyword argument")
  else
    text ← lift (print_text args kwargs);
    match file with
    | Some f => write f text
    | None =>
        match kwargs !! "file" with
        | None | Some PyNone => write FStdout text
        | Some v =>
            raise (AttributeError ("'" +:+ py_type_name v +:+ "' object has no attribute 'write'"))
        end
    end.

(** ** Strategies *)

Inductive LogStrategy :=
  | TerminalLogger
  | FileLogger (filepath : string)
  | DualLogger (terminal file : LogStrategy).

(** [print( *args, **kwargs, flush=True)] *)
Definition TerminalLogger_log (args : list pyval) (kwargs : gmap string pyval) : IO unit :=
  lift (call_with_keyword "print" kwargs "flush") ;;
  builtin_print args (<["flush" := PyBool true]> kwargs) None.

Definition banner (now : string) : string :=
  "--- Log Iniciado em " +:+ now +:+ " ---" +:+ NL.

(** [FileLogger.__init__]; [now] is [str(datetime.now())]. *)
Definition FileLogger_init (filepath : string) (reset : bool) (now : string)
  : IO LogStrategy :=
  (if reset
   then f ← open_write filepath "w"; write f (banner now)
   else mret tt) ;;
  mret (FileLogger filepath).

(** [with open(self.filepath, 'a') as f: print( *args, **kwargs, file=f)] *)
Definition FileLogger_log (filepath : string) (args : list pyval)
    (kwargs : gmap string pyval) : IO unit :=
  f ← open_write filepath "a";
  lift (call_with_keyword "print" kwargs "file") ;;
  builtin_print args kwargs (Some f).

Definition DualLogger_init (filepath : string) (reset : bool) (now : string)
  : IO LogStrategy :=
  let terminal := TerminalLogger in
  file ← FileLogger_init filepath reset now;
  mret (DualLogger terminal file).

(** Dynamic dispatch of [strategy.log( *args, **kwargs)]. *)
Fixpoint log (strategy : LogStrategy) (args : list pyval) (kwargs : gmap string pyval)
  : IO unit :=
  match strategy with
  | TerminalLogger => TerminalLogger_log args kwargs
  | FileLogger filepath => FileLogger_log filepath args kwargs
  | DualLogger terminal file =>
      log terminal args kwargs ;;
      log file args kwargs
  end.

Definition DualLogger_log (terminal file : LogStrategy) (args : list pyval)
    (kwargs : gmap string pyval) : IO unit :=
  log (DualLogger terminal file) args kwargs.

(** ** The queue, the worker handle and the listener *)

(** What travels through the queue.  [WorkerLogger.log] only ever puts pairs
    [(args, kwargs)]; the listener unpacks whatever it gets. *)
Inductive pyobj :=
  | Scalar (v : pyval)
  | Payload (args : list pyval) (kwargs : gmap string pyval).

(** A queue entry; [sender] is a ghost tag naming the worker handle that put
    it, the code never reads it. *)
Record msg := mkMsg { sender : nat; body : pyobj }.

(** [WorkerLogger.log]: [self.queue.put((args, kwargs))] *)
Definition WorkerLogger_log (handle : nat) (queue : list msg)
    (args : list pyval) (kwargs : gmap string pyval) : list msg :=
  queue ++ [mkMsg handle (Payload args kwargs)].

(** [args, kwargs = payload] followed by the spreading [( *args, **kwargs)]. *)
Definition unpack (payload : pyobj) : result (list pyval * gmap string pyval) :=
  match payload with
  | Payload args kwargs => Ok (args, kwargs)
  | Scalar (PyStr s) =>
      if Nat.ltb (String.length s) 2
      then Raise (ValueError ("not enough values to unpack (expected 2, got "
                                +:+ pretty (String.length s) +:+ ")"))
      else if Nat.ltb 2 (String.length s)
      then Raise (ValueError "too many values to unpack (expected 2)")
      else Raise (TypeError "argument after ** must be a mapping, not str")
  | Scalar v =>
      Raise (TypeError ("cannot unpack non-iterable " +:+ py_type_name v +:+ " object"))
  end.

(** The statements of the [try] block after [queue.get()] has returned
    [payload]. *)
Definition deliver (strategy : LogStrategy) (payload : pyobj) : IO unit :=
  ak ← lift (unpack payload);
  log strategy ak.1 ak.2.

(** The body of the inner loop of [_listener_worker]. *)
Definition handle_payload (strategy : LogStrategy) (payload : pyobj) : IO unit :=
  try_except
    (deliver strategy payload)
    (fun e =>
       builtin_print [PyStr ("ERRO CRÍTICO NO LOGGER: " +:+ exn_str e)] ∅ (Some FStderr)).

(** Control points of [_listener_worker]. *)
Inductive lpc :=
  | LOuter          (* about to evaluate [stop_event.is_set()] *)
  | LOuterEmpty     (* the event was set: about to evaluate [queue.empty()] *)
  | LInner          (* about to evaluate the inner [queue.empty()] *)
  | LGet            (* about to call [queue.get()] *)
  | LSleep          (* about to call [time.sleep(0.05)] *)
  | LExit           (* the function returned *)
  | LCrashed (e : exn).  (* an exception left the function *)

Inductive stop_phase :=
  | StopNotCalled
  | StopJoining     (* inside [listener_process.join()] *)
  | StopJoined      (* [stop()] returned after the join *)
  | StopSkipped.    (* [stop()] returned, there was no process to join *)

Definition sleep_ms : nat := 50.

(** The manager, the listener process and the environment.  The last five
    fields are ghost state: every message ever put, every message handed to
    [strategy.log], the length of [history] when [stop()] was invoked, and for
    each sleep the value of the event and the length of the queue when it was
    taken. *)
Record Sys := mkSys {
  strategy : LogStrategy;
  queue : list msg;
  stop_event : bool;
  listener_process : option lpc;
  stop_call : stop_phase;
  world : World;
  history : list msg;
  delivered : list msg;
  stop_mark : option nat;
  sleeps : list (bool * nat);
  slept_ms : nat
}.

(** [ParallelLogManager.__init__] *)
Definition ParallelLogManager_init (strategy : LogStrategy) (w : World) : Sys :=
  mkSys strategy [] false None StopNotCalled w [] [] None [] 0.

Definition set_pc (pc : lpc) (s : Sys) : Sys :=
  mkSys (strategy s) (queue s) (stop_event s) (Some pc) (stop_call s) (world s)
        (history s) (delivered s) (stop_mark s) (sleeps s) (slept_ms s).

(** [get_logger().log( *args, **kwargs)] called by worker [handle]. *)
Definition worker_log (handle : nat) (args : list pyval) (kwargs : gmap string pyval)
    (s : Sys) : Sys :=
  mkSys (strategy s) (WorkerLogger_log handle (queue s) args kwargs) (stop_event s)
        (listener_process s) (stop_call s) (world s)
        (history s ++ [mkMsg handle (Payload args kwargs)]) (delivered s)
        (stop_mark s) (sleeps s) (slept_ms s).

(** [ParallelLogManager.start]: spawns the listener process. *)
Definition ParallelLogManager_start (s : Sys) : result unit * Sys :=
  (Ok tt, set_pc LOuter s).

(** [ParallelLogManager.stop] up to the point where it returns or blocks in
    [join()]. *)
Definition ParallelLogManager_stop (s : Sys) : result stop_phase * Sys :=
  let phase :=
    match listener_process s with
    | Some _ => StopJoining
    | None => StopSkipped
    end in
  (Ok phase,
   mkSys (strategy s) (queue s) true (listener_process s) phase (world s)
         (history s) (delivered s) (Some (length (history s))) (sleeps s) (slept_ms s)).

Definition join_returns (s : Sys) : Sys :=
  mkSys (strategy s) (queue s) (stop_event s) (listener_process s) StopJoined (world s)
        (history s) (delivered s) (stop_mark s) (sleeps s) (slept_ms s).

Definition finished (pc : lpc) : bool :=
  match pc with LExit | LCrashed _ => true | _ => false end.

(** One atomic step of [_listener_worker] from control point [pc]; [None] when
    the process cannot move (it has ended, or [queue.get()] blocks). *)
Definition listener_step (pc : lpc) (s : Sys) : option Sys :=
  match pc with
  | LOuter =>
      (* [not stop_event.is_set() or ...]: [or] short-circuits *)
      Some (if stop_event s then set_pc LOuterEmpty s else set_pc LInner s)
  | LOuterEmpty =>
      Some (match queue s with [] => set_pc LExit s | _ => set_pc LInner s end)
  | LInner =>
      Some (match queue s with [] => set_pc LSleep s | _ => set_pc LGet s end)
  | LGet =>
      match queue s with
      | [] => None
      | m :: q =>
          let rw := handle_payload (strategy s) (body m) (world s) in
          Some (mkSys (strategy s) q (stop_event s)
                      (Some match rw.1 with Ok _ => LInner | Raise e => LCrashed e end)
                      (stop_call s) rw.2 (history s)
                      (delivered s ++ (if is_Ok (unpack (body m)) then [m] else []))
                      (stop_mark s) (sleeps s) (slept_ms s))
      end
  | LSleep =>
      Some (mkSys (strategy s) (queue s) (stop_event s) (Some LOuter) (stop_call s)
                  (world s) (history s) (delivered s) (stop_mark s)
                  (sleeps s ++ [(stop_event s, length (queue s))])
                  (slept_ms s + sleep_ms))
  | LExit | LCrashed _ => None
  end.

(** The moves of the whole system.  The model covers one [start()] and one
    [stop()] per manager, in either order. *)
Inductive action :=
  | ALog (handle : nat) (args : list pyval) (kwargs : gmap string pyval)
  | AStart
  | AStop
  | AJoin
  | AListener.

Definition exec (a : action) (s : Sys) : option Sys :=
  match a with
  | ALog handle args kwargs => Some (worker_log handle args kwargs s)
  | AStart =>
      match listener_process s with
      | None => Some (ParallelLogManager_start s).2
      | Some _ => None
      end
  | AStop =>
      match stop_call s with
      | StopNotCalled => Some (ParallelLogManager_stop s).2
      | _ => None
      end
  | AJoin =>
      match stop_call s, listener_process s with
      | StopJoining, Some pc => if finished pc then Some (join_returns s) else None
      | _, _ => None
      end
  | AListener =>
      match listener_process s with
      | Some pc => listener_step pc s
      | None => None
      end
  end.

Fixpoint run (acts : list action) (s : Sys) : option Sys :=
  match acts with
  | [] => Some s
  | a :: acts' =>
      match exec a s with
      | Some s' => run acts' s'
      | None => None
      end
  end.

Inductive reachable (s0 : Sys) : Sys -> Prop :=
  | reach_init : reachable s0 s0
  | reach_step s a s' : reachable s0 s -> exec a s = Some s' -> reachable s0 s'.

(** ** Regular expressions, as far as [Plots.py] uses them

    A backtracking matcher in the order of Python's [re]: a lazy star tries the
    shortest repetition first, a greedy plus and an optional group the longest
    first, and [search] tries the start positions from left to right. *)

Inductive regex :=
  | RLit (l : list ascii)                   (* literal text *)
  | RLazyStar (c : ascii -> bool)           (* [c*?] *)
  | RPlus (c : ascii -> bool)               (* [c+] *)
  | ROpt (r : regex)                        (* [r?] *)
  | RSeq (r1 r2 : regex)
  | RGroup (name : string) (r : regex).     (* [(?P<name>r)] *)

Fixpoint starts_with (l s : list ascii) : bool :=
  match l, s with
  | [], _ => true
  | a :: l', b :: s' => Ascii.eqb a b && starts_with l' s'
  | _ :: _, [] => false
  end.

Fixpoint lazy_star {R} (c : ascii -> bool) (k : list ascii -> option R)
    (s : list ascii) : option R :=
  match k s with
  | Some x => Some x
  | None =>
      match s with
      | a :: s' => if c a then lazy_star c k s' else None
      | [] => None
      end
  end.

Fixpoint greedy_star {R} (c : ascii -> bool) (k : list ascii -> option R)
    (s : list ascii) : option R :=
  match s with
  | a :: s' =>
      if c a
      then match greedy_star c k s' with
           | Some x => Some x
           | None => k s
           end
      else k s
  | [] => k s
  end.

Definition greedy_plus {R} (c : ascii -> bool) (k : list ascii -> option R)
    (s : list ascii) : option R :=
  match s with
  | a :: s' => if c a then greedy_star c k s' else None
  | [] => None
  end.

(** [rmatch r s g k]: match [r] at the head of [s] with the groups [g] bound so
    far, then hand the rest of the text to [k]; backtrack when [k] fails. *)
Fixpoint rmatch (r : regex) (s : list ascii) (g : gmap string (list ascii))
    (k : list ascii -> gmap string (list ascii) -> option (gmap string (list ascii)))
  : option (gmap string (list ascii)) :=
  match r with
  | RLit l => if starts_with l s then k (drop (length l) s) g else None
  | RLazyStar c => lazy_star c (fun rest => k rest g) s
  | RPlus c => greedy_plus c (fun rest => k rest g) s
  | ROpt r1 =>
      match rmatch r1 s g k with
      | Some x => Some x
      | None => k s g
      end
  | RSeq r1 r2 => rmatch r1 s g (fun rest g' => rmatch r2 rest g' k)
  | RGroup name r1 =>
      rmatch r1 s g
        (fun rest g' => k rest (<[name := take (length s - length rest) s]> g'))
  end.

(** [pattern.search(s)]: the groups of the leftmost match. *)
Fixpoint search (r : regex) (s : list ascii) : option (gmap string (list ascii)) :=
  match rmatch r s ∅ (fun _ g => Some g) with
  | Some g => Some g
  | None =>
      match s with
      | _ :: s' => search r s'
      | [] => None
      end
  end.

(** [m.group(name)] *)
Definition group (m : gmap string (list ascii)) (name : string) : list ascii :=
  default [] (m !! name).

(** ** [Plots.py] *)

Definition txt (s : string) : list ascii := list_ascii_of_string s.

(** [.]: any character but the newline *)
Definition dot (a : ascii) : bool := negb (Ascii.eqb a "010").
(** [\d] on ASCII text *)
Definition digit (a : ascii) : bool :=
  (48 <=? nat_of_ascii a)%nat && (nat_of_ascii a <=? 57)%nat.
(** [[\d\.]] *)
Definition digit_or_dot (a : ascii) : bool := digit a || Ascii.eqb a ".".

(** [(?P<metaheuristic>.*?) NEW BEST: (?P<fitness>[-]?[\d\.]+)(?: - BEST: [\d\.]+)? - Time: (?P<time>[\d\.]+)s] *)
Definition pattern : regex :=
  RSeq (RGroup "metaheuristic" (RLazyStar dot))
  (RSeq (RLit (txt " NEW BEST: "))
  (RSeq (RGroup "fitness" (RSeq (ROpt (RLit (txt "-"))) (RPlus digit_or_dot)))
  (RSeq (ROpt (RSeq (RLit (txt " - BEST: ")) (RPlus digit_or_dot)))
  (RSeq (RLit (txt " - Time: "))
  (RSeq (RGroup "time" (RPlus digit_or_dot))
        (RLit (txt "s"))))))).

(** [sub in s] *)
Fixpoint contains (sub s : list ascii) : bool :=
  starts_with sub s ||
  match s with
  | _ :: s' => contains sub s'
  | [] => false
  end.

(** [str.isspace] on an ASCII character *)
Definition is_space (a : ascii) : bool :=
  let n := nat_of_ascii a in
  ((9 <=? n) && (n <=? 13) || (28 <=? n) && (n <=? 32))%nat.

Fixpoint lstrip (s : list ascii) : list ascii :=
  match s with
  | a :: s' => if is_space a then lstrip s' else s
  | [] => []
  end.

(** [s.strip()] *)
Definition strip (s : list ascii) : list ascii := rev (lstrip (rev (lstrip s))).

(** *** [float] on decimal text *)

Definition binary64_div : spec_float -> spec_float -> spec_float := SFdiv 53 1024.

(** Digits before and after the only dot: the value is [mant / 10^scale].
    [seen_dot] tells whether the dot was met, [any] whether a digit was. *)
Fixpoint decimal (s : list ascii) (mant : N) (scale : N) (seen_dot any : bool)
  : option (N * N) :=
  match s with
  | [] => if any then Some (mant, scale) else None
  | a :: s' =>
      if digit a
      then decimal s' (10 * mant + N.of_nat (nat_of_ascii a - 48))
                   (if seen_dot then scale + 1 else scale) seen_dot true
      else if Ascii.eqb a "." && negb seen_dot
      then decimal s' mant scale true any
      else None
  end%N.

Definition pow10 (scale : N) : positive :=
  match scale with
  | N0 => 1
  | Npos p => Pos.pow 10 p
  end.

(** [float(s)] for the texts a number group of [pattern] can capture (an
    optional sign, then digits and dots): the nearest binary64 value, or
    [ValueError] unless there is a digit and at most one dot. *)
Definition py_float (s : list ascii) : result spec_float :=
  let (neg, body) :=
    match s with
    | a :: s' => if Ascii.eqb a "-" then (true, s') else (false, s)
    | [] => (false, s)
    end in
  match decimal body 0 0 false false with
  | Some (N0, _) => Ok (S754_zero neg)
  | Some (Npos m, scale) =>
      Ok (binary64_div (S754_finite neg m 0)
                       (S754_finite false (pow10 scale) 0))
  | None =>
      Raise (ValueError ("could not convert string to float: '"
                           +:+ string_of_list_ascii s +:+ "'"))
  end.

(** *** [HistoryPlotter.parse_log_file] *)

(** One tuple [(metaheuristic_name, fitness, time, run_number)] of the result. *)
Record entry := mkEntry {
  meta_name : list ascii;
  fitness : spec_float;
  time_val : spec_float;
  run_number : nat
}.

Definition nonempty {A} (l : list A) : bool :=
  match l with [] => false | _ :: _ => true end.

(** The [for line in lines] loop, with its three variables. *)
Fixpoint parse_loop (lines : list (list ascii)) (data : list entry)
    (run_count : nat) (last_time : spec_float) : result (list entry) :=
  match lines with
  | [] => Ok data
  | line :: rest =>
      if contains (txt "NEW BEST") line
      then
        match search pattern line with
        | Some m =>
            let name := strip (group m "metaheuristic") in
            match py_float (group m "fitness") with
            | Raise e => Raise e
            | Ok fit =>
                match py_float (group m "time") with
                | Raise e => Raise e
                | Ok t =>
                    let run_count' :=
                      if nonempty data && SFltb t last_time
                      then S run_count else run_count in
                    parse_loop rest (data ++ [mkEntry name fit t run_count']) run_count' t
                end
            end
        | None => parse_loop rest data run_count last_time
        end
      else parse_loop rest data run_count last_time
  end.

Definition parse_lines (lines : list (list ascii)) : result (list entry) :=
  parse_loop lines [] 1 (S754_zero false).

(** Text mode reads [\r\n] and a lone [\r] as [\n]. *)
Fixpoint universal_newlines (s : list ascii) : list ascii :=
  match s with
  | [] => []
  | a :: s' =>
      if Ascii.eqb a "013"
      then match s' with
           | b :: s'' =>
               if Ascii.eqb b "010"
               then "010"%char :: universal_newlines s''
               else "010"%char :: universal_newlines s'
           | [] => ["010"%char]
           end
      else a :: universal_newlines s'
  end.

(** The lines of a text, each with its newline; [cur] is the line being read,
    last character first. *)
Fixpoint split_lines (s : list ascii) (cur : list ascii) : list (list ascii) :=
  match s with
  | [] => match cur with [] => [] | _ :: _ => [rev cur] end
  | a :: s' =>
      if Ascii.eqb a "010"
      then rev (a :: cur) :: split_lines s' []
      else split_lines s' (a :: cur)
  end.

(** [f.readlines()] *)
Definition readlines (content : string) : list (list ascii) :=
  split_lines (universal_newlines (txt content)) [].

(** [parse_log_file]: the [except FileNotFoundError] branch prints and returns
    the empty list; any other exception of the [try] block leaves the function,
    and so does one raised by [float] in the loop. *)
Definition parse_log_file (file_path : string) : IO (list entry) :=
  fun w =>
    match (content ← read_file file_path; mret (readlines content)) w with
    | (Raise (FileNotFoundError _), w') =>
        (builtin_print [PyStr ("File not found: " +:+ file_path)] ∅ None ;; mret []) w'
    | (Raise e, w') => (Raise e, w')
    | (Ok lines, w') => lift (parse_lines lines) w'
    end.

(** * Vocabulary of the properties

    The claims in the words of the specification, the invariant of the
    system, and the inputs the examples run on. *)

(** An empty environment, and one whose standard output is closed. *)
Definition w0 : World := mkWorld false "" "" ∅ ∅ [].
Definition w_closed : World := mkWorld true "" "" ∅ ∅ [].

Ltac io_unfold :=
  unfold mbind, mret, IO_bind, IO_ret, io_bind, io_ret, lift, raise, try_except in *.

(** ** For the sinks *)

(** What [print] raises when [flush] is given twice. *)
Definition duplicate_flush : exn :=
  TypeError "print() got multiple values for keyword argument 'flush'".

(** C1 as the specification words it: whatever the terminal write did, the file
    write is performed on the world it left. *)
Definition dual_isolates_failures : Prop :=
  forall (path : string) (args : list pyval) (kwargs : gmap string pyval) (w : World),
    (DualLogger_log TerminalLogger (FileLogger path) args kwargs w).2
    = (FileLogger_log path args kwargs (TerminalLogger_log args kwargs w).2).2.

(** The banner as the specification spells it. *)
Definition banner_in_spec (now : string) : string :=
  "--- Log Started at " +:+ now +:+ " ---" +:+ NL.

(** C4 as the specification words it, for the text of the banner. *)
Definition reset_stamps_banner_in_spec : Prop :=
  forall (path now : string) (w : World),
    path ∉ locked w ->
    files (FileLogger_init path true now w).2 !! path = Some (banner_in_spec now).

(** ** For the manager and its listener *)

(** The line the listener prints for an exception. *)
Definition report (e : exn) : string :=
  "ERRO CRÍTICO NO LOGGER: " +:+ exn_str e +:+ NL.

(** The payload is a pair [(args, kwargs)], as every payload a worker handle
    puts is. *)
Definition unpackable (m : msg) : Prop := is_Ok (unpack (body m)) = true.

#[local] Instance unpackable_dec m : Decision (unpackable m).
Proof. unfold unpackable. apply _. Defined.

(** What holds in every state the system reaches. *)
Record Inv (s : Sys) : Prop := mkInv {
  inv_fifo : delivered s ++ queue s = history s;
  inv_payloads : Forall unpackable (queue s);
  inv_alive : forall e, listener_process s <> Some (LCrashed e);
  inv_mark :
    match stop_mark s with
    | Some n => stop_event s = true /\ n <= length (history s)
                /\ stop_call s <> StopNotCalled
    | None => stop_event s = false /\ stop_call s = StopNotCalled
    end;
  inv_seen : listener_process s = Some LOuterEmpty -> stop_event s = true;
  inv_exit :
    listener_process s = Some LExit ->
    exists n, stop_mark s = Some n /\ n <= length (delivered s);
  inv_joined : stop_call s = StopJoined -> listener_process s = Some LExit
}.

(** A worker logs a payload [print] rejects, then a good one. *)
Definition bad_then_good : list action :=
  [AStart;
   ALog 1 [PyStr "first"] {["flush" := PyBool true]};
   ALog 1 [PyStr "second"] ∅;
   AListener; AListener; AListener; AListener; AListener].

(** C6 as the specification words it. *)
Definition stop_before_start_fails : Prop :=
  forall s, listener_process s = None ->
    exists e, (ParallelLogManager_stop s).1 = Raise e.

(** C7 as the specification words it: whenever the listener sleeps, the event
    is not set and the queue is empty. *)
Definition sleeps_only_when_idle : Prop :=
  forall strategy w s,
    reachable (ParallelLogManager_init strategy w) s ->
    forall obs, obs ∈ sleeps s -> obs = (false, 0).

(** A message waits and the event is set before the listener first looks. *)
Definition drain_after_stop : list action :=
  [ALog 1 [PyStr "x"] ∅; AStart; AStop] ++ repeat AListener 8.

(** Two workers log, the manager stops, the listener runs to its end. *)
Definition two_workers_then_stop : list action :=
  [ALog 1 [PyStr "A"; PyInt 1] ∅; AStart; ALog 2 [PyStr "B"; PyInt 2] ∅; AStop]
    ++ repeat AListener 10 ++ [AJoin].




(** ** For the log parser *)

(** C5 as the specification words it: reading a path that does not exist makes
    [parse_log_file] raise the file-not-found error. *)
Definition missing_file_error_surfaces : Prop :=
  forall (path : string) (w : World),
    files w !! path = None ->
    exists msg, (parse_log_file path w).1 = Raise (FileNotFoundError msg).

(** Every character of [s] is in the class [c]. *)
Definition all_in (c : ascii -> bool) (s : list ascii) : Prop :=
  Forall (fun a => c a = true) s.

(** The texts a regular expression matches. *)
Fixpoint Matches (r : regex) (s : list ascii) : Prop :=
  match r with
  | RLit l => s = l
  | RLazyStar c => all_in c s
  | RPlus c => s <> [] /\ all_in c s
  | ROpt r1 => s = [] \/ Matches r1 s
  | RSeq r1 r2 => exists s1 s2, s = s1 ++ s2 /\ Matches r1 s1 /\ Matches r2 s2
  | RGroup _ r1 => Matches r1 s
  end.

Ltac split_all := repeat split; try done; try (by constructor).

(** A number as the pattern reads it: a run of digits and dots. *)
Definition number (t : list ascii) : Prop := t <> [] /\ all_in digit_or_dot t.

(** The pattern in the words of the specification,
    [<name> NEW BEST: <float>[ - BEST: <float>] - Time: <float>s], found
    somewhere in the line; the first number may carry a minus sign. *)
Definition line_matches (line : list ascii) : Prop :=
  exists pre name fit best time post,
    line = pre ++ name ++ txt " NEW BEST: " ++ fit ++ best
               ++ txt " - Time: " ++ time ++ txt "s" ++ post
    /\ all_in dot name
    /\ (number fit \/ exists f, fit = "-"%char :: f /\ number f)
    /\ (best = [] \/ exists b, best = txt " - BEST: " ++ b /\ number b)
    /\ number time.

(** The lines the specification says an entry is extracted from. *)
Definition selected (line : list ascii) : Prop :=
  contains (txt "NEW BEST") line = true /\ line_matches line.

(** [e] holds what the loop body reads from [line]. *)
Definition entry_of_line (line : list ascii) (e : entry) : Prop :=
  exists m, search pattern line = Some m
    /\ meta_name e = strip (group m "metaheuristic")
    /\ py_float (group m "fitness") = Ok (fitness e)
    /\ py_float (group m "time") = Ok (time_val e).

(** [data] has one entry for each selected line, in the order of the lines,
    and none for the others. *)
Fixpoint extracted (lines : list (list ascii)) (data : list entry) : Prop :=
  match lines with
  | [] => data = []
  | line :: rest =>
      (selected line
       /\ exists e data', data = e :: data' /\ entry_of_line line e /\ extracted rest data')
      \/ (~ selected line /\ extracted rest data)
  end.

(** The run number goes up by one exactly when the time is below the time of
    the entry before. *)
Definition run_rule (prev e : entry) : Prop :=
  run_number e = if SFltb (time_val e) (time_val prev)
                 then S (run_number prev) else run_number prev.

Fixpoint runs_from (prev : option entry) (data : list entry) : Prop :=
  match data with
  | [] => True
  | e :: rest =>
      match prev with
      | None => run_number e = 1
      | Some p => run_rule p e
      end /\ runs_from (Some e) rest
  end.

(** The loop variables agree with the entries appended so far. *)
Definition acc_ok (data : list entry) (run_count : nat) (last_time : spec_float) : Prop :=
  match last data with
  | None => run_count = 1
  | Some p => run_count = run_number p /\ last_time = time_val p
  end.

(** [float] accepts the two numbers of the line, if the line is one the loop
    reads numbers from. *)
Definition numbers_accepted (line : list ascii) : Prop :=
  contains (txt "NEW BEST") line = true ->
  forall m, search pattern line = Some m ->
    is_Ok (py_float (group m "fitness")) = true
    /\ is_Ok (py_float (group m "time")) = true.

(** Run numbers in non-decreasing order. *)
Definition run_le (a b : entry) : Prop := run_number a <= run_number b.

(** C8 as the specification words it: for every sequence of lines the parser
    returns entries, one for each selected line, with run numbers that start at
    1 and follow the times. *)
Definition parser_extracts_from_every_log : Prop :=
  forall lines,
    exists data, parse_lines lines = Ok data
                 /\ extracted lines data /\ runs_from None data.

(** A line the pattern matches with a number [float] rejects. *)
Definition two_dots : list ascii := txt "SA NEW BEST: 1.2.3 - Time: 1.0s".

(** Three matching lines, a line of noise and a line without the final [s]. *)
Definition sample_log : list (list ascii) :=
  [txt "SA 0 NEW BEST: 123.45 - BEST: 100.0 - Time: 10.0s - 50";
   txt "noise";
   txt "pool NEW BEST: -3 - Time: 12.5s";
   txt " GA NEW BEST: 7. - Time: 1.5s";
   txt "x NEW BEST: 7. - Time: 1.5"].

(** * Properties *)

(** ** The sinks *)

Lemma TerminalLogger_log_flush args kwargs v w :
  kwargs !! "flush" = Some v ->
  TerminalLogger_log args kwargs w = (Raise duplicate_flush, w).
Proof.
  intros Hk. unfold TerminalLogger_log, call_with_keyword. io_unfold.
  rewrite Hk. reflexivity.
Qed.

(** C10. A payload with a [flush] keyword makes [TerminalLogger.log] raise
    [TypeError] (the keyword is given twice to [print]) before anything is
    written, and so does [DualLogger.log], whose first call is the terminal's. *)
Theorem flush_keyword_rejected (args : list pyval) (kwargs : gmap string pyval)
    (v : pyval) (file : LogStrategy) (w : World) :
  kwargs !! "flush" = Some v ->
  TerminalLogger_log args kwargs w = (Raise duplicate_flush, w)
  /\ DualLogger_log TerminalLogger file args kwargs w = (Raise duplicate_flush, w).
Proof.
  intros Hk. split.
  - by apply TerminalLogger_log_flush with v.
  - unfold DualLogger_log. cbn [log]. unfold mbind at 1, IO_bind, io_bind.
    by rewrite (TerminalLogger_log_flush _ _ v).
Qed.

Lemma flush_keyword_rejected_witness :
  TerminalLogger_log [PyStr "x"] {["flush" := PyBool false]} w0
    = (Raise duplicate_flush, w0)
  /\ DualLogger_log TerminalLogger (FileLogger "log.txt") [PyStr "x"]
       {["flush" := PyBool false]} w0 = (Raise duplicate_flush, w0).
Proof.
  apply (flush_keyword_rejected [PyStr "x"] {["flush" := PyBool false]} (PyBool false)).
  reflexivity.
Defined.

Lemma DualLogger_log_unfold terminal file args kwargs w :
  DualLogger_log terminal file args kwargs w
  = match log terminal args kwargs w with
    | (Ok _, w') => log file args kwargs w'
    | (Raise e, w') => (Raise e, w')
    end.
Proof. reflexivity. Qed.

(** The first thing [FileLogger.log] does is to open its file for appending;
    it never touches the standard output. *)
Lemma FileLogger_log_frame path args kwargs w :
  stdout (FileLogger_log path args kwargs w).2 = stdout w
  /\ exists ev rest,
       io_log (FileLogger_log path args kwargs w).2 = io_log w ++ ev :: rest
       /\ (ev = EvOpen path "a" \/ ev = EvOpenFailed path "a").
Proof.
  unfold FileLogger_log, open_write, call_with_keyword, builtin_print, write.
  io_unfold.
  destruct (decide (path ∈ locked w)); simpl.
  { split; [done|]. exists (EvOpenFailed path "a"), []. auto. }
  destruct (kwargs !! "file"); simpl.
  { split; [done|]. exists (EvOpen path "a"), []. auto. }
  destruct (negb _); simpl.
  { split; [done|]. exists (EvOpen path "a"), []. auto. }
  destruct (print_text args kwargs); simpl.
  - split; [done|]. eexists (EvOpen path "a"), [_].
    rewrite <- app_assoc. auto.
  - split; [done|]. exists (EvOpen path "a"), []. auto.
Qed.

(** C1, counterexample: with a closed standard output the terminal write
    raises, [DualLogger.log] raises with it, and the log file is never opened. *)
Lemma dual_terminal_failure_skips_file :
  let d := DualLogger_log TerminalLogger (FileLogger "log.txt")
             [PyStr "A"; PyInt 1] ∅ w_closed in
  d.1 = Raise (ValueError "I/O operation on closed file.")
  /\ io_log d.2 = [EvWriteFailed FStdout]
  /\ files d.2 !! "log.txt" = None
  /\ ~ dual_isolates_failures.
Proof.
  split; [reflexivity|]. split; [reflexivity|]. split; [reflexivity|].
  intros H.
  specialize (H "log.txt" [PyStr "A"; PyInt 1] ∅ w_closed).
  apply (f_equal io_log) in H. vm_compute in H. discriminate H.
Qed.

(** C1, amended. [DualLogger.log] calls the terminal first and the file second:
    when the terminal write returns, the file write runs on the world it left
    (and starts by opening the file), and a failure of the file write leaves
    what the terminal wrote; when the terminal write raises, the exception
    leaves [DualLogger.log] and no file operation follows. *)
Theorem dual_log_terminal_then_file (path : string) (args : list pyval)
    (kwargs : gmap string pyval) (w : World) :
  let t := TerminalLogger_log args kwargs w in
  let d := DualLogger_log TerminalLogger (FileLogger path) args kwargs w in
  ((t.1 = Ok tt
    /\ d = FileLogger_log path args kwargs t.2
    /\ exists ev rest, io_log d.2 = io_log t.2 ++ ev :: rest
         /\ (ev = EvOpen path "a" \/ ev = EvOpenFailed path "a"))
   \/ (exists e, t.1 = Raise e /\ d = (Raise e, t.2)))
  /\ stdout d.2 = stdout t.2.
Proof.
  intros t d. subst d. rewrite DualLogger_log_unfold. cbn [log]. fold t.
  destruct t as [[[]|e] w1] eqn:Ht; simpl.
  - destruct (FileLogger_log_frame path args kwargs w1) as [Hout Hlog].
    split; [|done]. left. auto.
  - split; [|done]. right. eauto.
Qed.

(** C4, counterexample: the line the constructor writes is in Portuguese. *)
Lemma reset_banner_text_differs :
  files (FileLogger_init "log.txt" true "2024-05-01 10:00:00" w0).2 !! "log.txt"
    = Some ("--- Log Iniciado em 2024-05-01 10:00:00 ---" +:+ NL)
  /\ ~ reset_stamps_banner_in_spec.
Proof.
  split; [reflexivity|].
  intros H. specialize (H "log.txt" "2024-05-01 10:00:00" w0).
  assert (Hfree : "log.txt" ∉ locked w0) by (apply not_elem_of_empty).
  specialize (H Hfree). vm_compute in H. discriminate H.
Qed.

(** C4, amended. With [reset] the constructor truncates the file and writes
    the one line [--- Log Iniciado em <now> ---]; without it the constructor
    does nothing; and [log] keeps what the file held and, when it returns,
    has put the printed text at its end. *)
Theorem FileLogger_reset_and_append (path now : string) (w : World) :
  path ∉ locked w ->
  (let r := FileLogger_init path true now w in
   r.1 = Ok (FileLogger path)
   /\ files r.2 !! path = Some ("--- Log Iniciado em " +:+ now +:+ " ---" +:+ NL)
   /\ io_log r.2 = io_log w ++ [EvOpen path "w"; EvWrite (FHandle path) (banner now)])
  /\ FileLogger_init path false now w = (Ok (FileLogger path), w)
  /\ forall args kwargs,
       let r := FileLogger_log path args kwargs w in
       let old := default "" (files w !! path) in
       match r.1 with
       | Ok _ =>
           exists text, print_text args kwargs = Ok text
                        /\ files r.2 !! path = Some (old +:+ text)
       | Raise _ => files r.2 !! path = Some old
       end.
Proof.
  intros Hfree. split; [|split].
  - unfold FileLogger_init, open_write, write. io_unfold.
    destruct (decide (path ∈ locked w)); [done|]. simpl.
    rewrite lookup_insert_eq. simpl. rewrite lookup_insert_eq.
    rewrite <- app_assoc. done.
  - reflexivity.
  - intros args kwargs. simpl.
    unfold FileLogger_log, open_write, call_with_keyword, builtin_print, write.
    io_unfold.
    destruct (decide (path ∈ locked w)); [done|]. simpl.
    destruct (kwargs !! "file"); simpl.
    { by rewrite lookup_insert_eq. }
    destruct (negb _); simpl.
    { by rewrite lookup_insert_eq. }
    destruct (print_text args kwargs) as [text|e]; simpl.
    + exists text. split; [done|].
      rewrite lookup_insert_eq. simpl. by rewrite lookup_insert_eq.
    + by rewrite lookup_insert_eq.
Qed.

Lemma FileLogger_reset_and_append_witness :
  files (FileLogger_init "log.txt" true "2024-05-01 10:00:00"
           (set_files {["log.txt" := "stale"]} w0)).2 !! "log.txt"
  = Some ("--- Log Iniciado em 2024-05-01 10:00:00 ---" +:+ NL).
Proof.
  refine (proj1 (proj2 (proj1
    (FileLogger_reset_and_append "log.txt" "2024-05-01 10:00:00"
       (set_files {["log.txt" := "stale"]} w0) _)))).
  apply not_elem_of_empty.
Defined.

(** ** The manager and its listener *)

Lemma append_assoc (a b c : string) : (a +:+ b) +:+ c = a +:+ (b +:+ c).
Proof.
  induction a as [|ch a IH]; [done|].
  change (String ch ((a +:+ b) +:+ c) = String ch (a +:+ (b +:+ c))).
  by rewrite IH.
Qed.

Lemma print_to_stderr text w :
  builtin_print [PyStr text] ∅ (Some FStderr) w
  = (Ok tt, record (EvWrite FStderr (text +:+ NL)) (set_stderr (stderr w +:+ (text +:+ NL)) w)).
Proof. reflexivity. Qed.

Lemma handle_payload_cases strategy payload w :
  match deliver strategy payload w with
  | (Ok _, w1) => handle_payload strategy payload w = (Ok tt, w1)
  | (Raise e, w1) =>
      handle_payload strategy payload w
      = (Ok tt, record (EvWrite FStderr (report e)) (set_stderr (stderr w1 +:+ report e) w1))
  end.
Proof.
  unfold handle_payload, try_except.
  destruct (deliver strategy payload w) as [[[]|e] w1]; [done|].
  rewrite print_to_stderr. unfold report.
  by rewrite append_assoc.
Qed.

Lemma handle_payload_returns strategy payload w :
  (handle_payload strategy payload w).1 = Ok tt.
Proof.
  pose proof (handle_payload_cases strategy payload w) as H.
  destruct (deliver strategy payload w) as [[|e] w1]; by rewrite H.
Qed.

Lemma Inv_init strategy w : Inv (ParallelLogManager_init strategy w).
Proof. by constructor. Qed.

Lemma listener_step_Inv pc s s' :
  listener_process s = Some pc -> listener_step pc s = Some s' -> Inv s -> Inv s'.
Proof.
  intros Hpc Hstep [Hfifo Hpay Halive Hmark Hseen Hexit Hjoined].
  assert (Hnj : stop_call s <> StopJoined).
  { intros Hj. specialize (Hjoined Hj). rewrite Hpc in Hjoined.
    injection Hjoined as ->. discriminate Hstep. }
  destruct pc; simpl in Hstep; try discriminate Hstep.
  - (* LOuter *)
    injection Hstep as <-.
    destruct (stop_event s) eqn:Hev; constructor; simpl; rewrite ?Hev; try done.
  - (* LOuterEmpty *)
    injection Hstep as <-. specialize (Hseen Hpc).
    destruct (queue s) eqn:Hq; constructor; simpl; rewrite ?Hq; try done.
    intros _. destruct (stop_mark s) as [n|]; [|destruct Hmark; congruence].
    exists n. split; [done|]. rewrite <- Hfifo, app_nil_r in Hmark. tauto.
  - (* LInner *)
    injection Hstep as <-.
    destruct (queue s) eqn:Hq; constructor; simpl; rewrite ?Hq; try done.
  - (* LGet *)
    destruct (queue s) as [|m q] eqn:Hq; [discriminate Hstep|].
    injection Hstep as <-. rewrite handle_payload_returns.
    inversion Hpay as [|? ? Hm Hq']; subst.
    unfold unpackable in Hm.
    constructor; simpl; rewrite ?Hm; try done.
    by rewrite <- app_assoc.
  - (* LSleep *)
    injection Hstep as <-. constructor; simpl; try done.
Qed.

Lemma exec_Inv a s s' : exec a s = Some s' -> Inv s -> Inv s'.
Proof.
  intros Hexec HI. destruct a; simpl in Hexec.
  - (* a worker logs *)
    injection Hexec as <-. destruct HI as [Hfifo Hpay Halive Hmark Hseen Hexit Hjoined].
    constructor; simpl; try done.
    + unfold WorkerLogger_log. by rewrite app_assoc, Hfifo.
    + unfold WorkerLogger_log. apply Forall_app. split; [done|].
      by repeat constructor.
    + destruct (stop_mark s); [|done]. rewrite length_app. simpl.
      destruct Hmark as (? & ? & ?). repeat split; [done|lia|done].
  - (* start *)
    destruct (listener_process s) eqn:Hl; [discriminate Hexec|].
    injection Hexec as <-. destruct HI as [Hfifo Hpay Halive Hmark Hseen Hexit Hjoined].
    constructor; simpl; try done.
    intros Hj. specialize (Hjoined Hj). congruence.
  - (* stop *)
    destruct (stop_call s) eqn:Hc; try discriminate Hexec.
    injection Hexec as <-. destruct HI as [Hfifo Hpay Halive Hmark Hseen Hexit Hjoined].
    assert (Hnone : stop_mark s = None).
    { destruct (stop_mark s); [|done]. destruct Hmark as (_ & _ & ?). done. }
    constructor; simpl; try done.
    + split; [done|]. split; [done|]. by destruct (listener_process s).
    + intros Hl. destruct (Hexit Hl) as (n & Hn & _). congruence.
    + by destruct (listener_process s).
  - (* join *)
    destruct (stop_call s) eqn:Hc; try discriminate Hexec.
    destruct (listener_process s) as [pc|] eqn:Hl; [|discriminate Hexec].
    destruct (finished pc) eqn:Hf; [|discriminate Hexec].
    injection Hexec as <-. destruct HI as [Hfifo Hpay Halive Hmark Hseen Hexit Hjoined].
    constructor; simpl; try done.
    + destruct (stop_mark s); [|destruct Hmark; congruence].
      destruct Hmark as (? & ? & _). done.
    + intros _. destruct pc; try discriminate Hf; [done|].
      by destruct (Halive e).
  - (* the listener moves *)
    destruct (listener_process s) as [pc|] eqn:Hl; [|discriminate Hexec].
    by apply (listener_step_Inv pc s).
Qed.

Lemma reachable_Inv strategy w s :
  reachable (ParallelLogManager_init strategy w) s -> Inv s.
Proof.
  induction 1 as [|s a s' _ IH Hexec].
  - apply Inv_init.
  - by apply (exec_Inv a s).
Qed.

Lemma reachable_run s0 s acts s' :
  reachable s0 s -> run acts s = Some s' -> reachable s0 s'.
Proof.
  revert s. induction acts as [|a acts IH]; intros s Hr Hrun; simpl in Hrun.
  - by injection Hrun as <-.
  - destruct (exec a s) as [s1|] eqn:Hexec; [|discriminate Hrun].
    apply (IH s1); [|done]. by apply reach_step with s a.
Qed.

Lemma run_app acts1 acts2 s :
  run (acts1 ++ acts2) s = match run acts1 s with
                           | Some s1 => run acts2 s1
                           | None => None
                           end.
Proof.
  revert s. induction acts1 as [|a acts1 IH]; intros s; simpl; [done|].
  destruct (exec a s); [apply IH|done].
Qed.

(** The inner loop empties the queue, two steps per message (the test and the
    [get]), and hands every well-formed payload to the strategy, whatever the
    strategy does with it. *)
Lemma drain_from_inner (msgs : list msg) : forall s,
  listener_process s = Some LInner -> queue s = msgs ->
  exists s',
    run (repeat AListener (2 * length msgs)) s = Some s'
    /\ listener_process s' = Some LInner /\ queue s' = []
    /\ delivered s' = delivered s ++ filter unpackable msgs
    /\ stop_event s' = stop_event s /\ sleeps s' = sleeps s
    /\ history s' = history s.
Proof.
  induction msgs as [|m msgs IH]; intros s Hpc Hq.
  - exists s. simpl. rewrite app_nil_r. done.
  - replace (2 * length (m :: msgs)) with (S (S (2 * length msgs))) by (simpl; lia).
    cbn [repeat run]. unfold exec at 1. rewrite Hpc. cbn [listener_step]. rewrite Hq.
    unfold exec at 1. cbn [set_pc listener_process listener_step queue].
    rewrite Hq. rewrite handle_payload_returns.
    match goal with |- context [run _ ?s1] => destruct (IH s1) as (s' & Hrun & H1 & H2 & H3 & H4 & H5 & H6) end;
      [done|done|].
    exists s'. rewrite Hrun. cbn in H3, H4, H5, H6.
    repeat split; try done.
    rewrite H3, filter_cons. unfold unpackable at 2.
    destruct (decide (is_Ok (unpack (body m)) = true)) as [Hm|Hm].
    + rewrite Hm. by rewrite <- app_assoc.
    + destruct (is_Ok (unpack (body m))); [done|]. by rewrite app_nil_r.
Qed.


(** A run of it: the first message makes [print] raise, the second is written. *)
Example listener_survives_bad_payload :
  option_map (fun s => (listener_process s, stdout (world s), stderr (world s)))
             (run bad_then_good (ParallelLogManager_init TerminalLogger w0))
  = Some (Some LInner, "second" +:+ NL,
          "ERRO CRÍTICO NO LOGGER: print() got multiple values for keyword argument 'flush'"
            +:+ NL).
Proof. vm_compute. reflexivity. Qed.

(** C6, counterexample: [stop()] on a manager that was never started returns. *)
Lemma stop_before_start_returns :
  (ParallelLogManager_stop (ParallelLogManager_init TerminalLogger w0)).1 = Ok StopSkipped
  /\ ~ stop_before_start_fails.
Proof.
  split; [reflexivity|].
  intros H. destruct (H (ParallelLogManager_init TerminalLogger w0) eq_refl) as [e He].
  discriminate He.
Qed.

(** C6, amended. [stop()] on a manager without a listener process sets the
    event and returns at once: nothing is raised, nothing is joined, and the
    queue, the deliveries and the environment stay as they were. *)
Theorem stop_without_listener_returns (s : Sys) :
  listener_process s = None ->
  let r := ParallelLogManager_stop s in
  r.1 = Ok StopSkipped
  /\ stop_event r.2 = true /\ stop_call r.2 = StopSkipped
  /\ listener_process r.2 = None
  /\ queue r.2 = queue s /\ delivered r.2 = delivered s /\ world r.2 = world s.
Proof.
  intros Hl. unfold ParallelLogManager_stop. simpl. rewrite Hl. done.
Qed.

Lemma stop_without_listener_returns_witness :
  (ParallelLogManager_stop
     (worker_log 1 [PyStr "x"] ∅ (ParallelLogManager_init TerminalLogger w0))).1
  = Ok StopSkipped.
Proof.
  refine (proj1 (stop_without_listener_returns
    (worker_log 1 [PyStr "x"] ∅ (ParallelLogManager_init TerminalLogger w0)) _)).
  reflexivity.
Defined.

(** C7, counterexample: the event is set before the listener looks at it and
    one message waits; the listener drains it, then sleeps with the event set,
    and only then leaves the loop. *)
Lemma sleep_after_shutdown_drain :
  option_map (fun s => (listener_process s, stop_event s, queue s, sleeps s, slept_ms s))
             (run drain_after_stop (ParallelLogManager_init TerminalLogger w0))
  = Some (Some LExit, true, [], [(true, 0)], 50)
  /\ ~ sleeps_only_when_idle.
Proof.
  assert (Hrun : option_map (fun s => (listener_process s, stop_event s, queue s, sleeps s, slept_ms s))
             (run drain_after_stop (ParallelLogManager_init TerminalLogger w0))
           = Some (Some LExit, true, [], [(true, 0)], 50)) by (vm_compute; reflexivity).
  split; [exact Hrun|].
  intros H.
  destruct (run drain_after_stop (ParallelLogManager_init TerminalLogger w0))
    as [s|] eqn:Hs; [|discriminate Hrun].
  simpl in Hrun. injection Hrun as _ _ _ Hsl _.
  assert (Hreach : reachable (ParallelLogManager_init TerminalLogger w0) s).
  { apply reachable_run with (ParallelLogManager_init TerminalLogger w0) drain_after_stop;
      [constructor|done]. }
  specialize (H TerminalLogger w0 s Hreach (true, 0)).
  rewrite Hsl in H. discriminate H. by left.
Qed.

(** C7, amended. The listener sleeps 50 ms at the end of every pass of the
    outer loop, right after the inner test found the queue empty and whether or
    not the event is set; no other step sleeps; and the loop is left without a
    sleep exactly at the outer test that finds the queue empty (the event
    having been seen set). *)
Theorem listener_sleep_discipline (s s' : Sys) :
  exec AListener s = Some s' ->
  (listener_process s' = Some LSleep <->
     listener_process s = Some LInner /\ queue s = [])
  /\ (listener_process s = Some LSleep ->
        listener_process s' = Some LOuter
        /\ sleeps s' = sleeps s ++ [(stop_event s, length (queue s))]
        /\ slept_ms s' = slept_ms s + 50)
  /\ (listener_process s <> Some LSleep ->
        sleeps s' = sleeps s /\ slept_ms s' = slept_ms s)
  /\ (listener_process s = Some LOuterEmpty -> queue s = [] ->
        listener_process s' = Some LExit).
Proof.
  unfold exec. destruct (listener_process s) as [pc|] eqn:Hpc; [|discriminate].
  intros Hstep.
  destruct pc; simpl in Hstep; try discriminate Hstep.
  - injection Hstep as <-.
    destruct (stop_event s); simpl; (split; [split; [done|intros [? _]; done]|done]).
  - injection Hstep as <-.
    destruct (queue s); simpl; (split; [split; [done|intros [? _]; done]|done]).
  - injection Hstep as <-.
    destruct (queue s); simpl; (split; [split; [done|intros [_ ?]; done]|done]).
  - destruct (queue s); [discriminate Hstep|]. injection Hstep as <-. simpl.
    rewrite handle_payload_returns.
    split; [split; [done|intros [? _]; done]|done].
  - injection Hstep as <-. simpl.
    split; [split; [done|intros [? _]; done]|done].
Qed.

Lemma listener_sleep_discipline_witness :
  let s := mkSys TerminalLogger [] true (Some LSleep) StopJoining w0 [] [] (Some 0) [] 0 in
  exists s', exec AListener s = Some s'
    /\ listener_process s' = Some LOuter /\ sleeps s' = [(true, 0)] /\ slept_ms s' = 50.
Proof.
  eexists. split; [reflexivity|].
  refine (proj1 (proj2 (listener_sleep_discipline
    (mkSys TerminalLogger [] true (Some LSleep) StopJoining w0 [] [] (Some 0) [] 0) _ _)) _);
    reflexivity.
Defined.

(** With the event set and no worker putting anything any more, the listener
    empties the queue and returns. *)
Lemma listener_exits_from_inner (s : Sys) :
  listener_process s = Some LInner -> stop_event s = true ->
  exists s',
    run (repeat AListener (2 * length (queue s) + 4)) s = Some s'
    /\ listener_process s' = Some LExit /\ queue s' = []
    /\ delivered s' = delivered s ++ filter unpackable (queue s).
Proof.
  intros Hpc Hev.
  destruct (drain_from_inner (queue s) s Hpc eq_refl)
    as (s1 & Hrun & Hpc1 & Hq1 & Hd1 & Hev1 & _).
  rewrite repeat_app, run_app, Hrun. rewrite Hev in Hev1.
  destruct s1 as [st q ev lp sc wd hi de sm sl ms].
  simpl in Hpc1, Hq1, Hd1, Hev1. subst q ev lp de.
  eexists. split; [reflexivity|]. done.
Qed.







(** The scenario of the specification: a file sink at [P] with [reset], two
    worker handles that log one message each, then [stop()]. *)
Example file_sink_scenario :
  let w1 := (FileLogger_init "P" true "2024-05-01 10:00:00" w0).2 in
  option_map (fun s => (stop_call s, files (world s) !! "P", stderr (world s)))
             (run two_workers_then_stop (ParallelLogManager_init (FileLogger "P") w1))
  = Some (StopJoined,
          Some ("--- Log Iniciado em 2024-05-01 10:00:00 ---" +:+ NL
                  +:+ "A 1" +:+ NL +:+ "B 2" +:+ NL),
          "").
Proof. vm_compute. reflexivity. Qed.

(** ** The log parser *)

(** C5, counterexample: on a missing file [parse_log_file] prints a line and
    returns the empty list. *)
Lemma missing_file_is_handled :
  let r := parse_log_file "missing.log" w0 in
  r.1 = Ok [] /\ stdout r.2 = "File not found: missing.log" +:+ NL
  /\ ~ missing_file_error_surfaces.
Proof.
  split; [reflexivity|]. split; [reflexivity|].
  intros H. destruct (H "missing.log" w0 eq_refl) as [msg Hmsg].
  discriminate Hmsg.
Qed.

Lemma print_to_stdout text w :
  builtin_print [PyStr text] ∅ None w
  = if stdout_closed w
    then (Raise (ValueError "I/O operation on closed file."),
          record (EvWriteFailed FStdout) w)
    else (Ok tt, record (EvWrite FStdout (text +:+ NL))
                   (set_stdout (stdout w +:+ (text +:+ NL)) w)).
Proof. reflexivity. Qed.

(** C5, amended. On a path that does not exist [parse_log_file] catches the
    file-not-found error itself: the error never reaches the caller, and with
    a writable standard output the call prints [File not found: <path>] and
    returns the empty list. *)
Theorem parse_log_file_missing (path : string) (w : World) :
  files w !! path = None ->
  (forall msg, (parse_log_file path w).1 <> Raise (FileNotFoundError msg))
  /\ (stdout_closed w = false ->
      (parse_log_file path w).1 = Ok []
      /\ stdout (parse_log_file path w).2 = stdout w +:+ ("File not found: " +:+ path) +:+ NL).
Proof.
  intros Hnone. unfold parse_log_file, read_file. io_unfold. rewrite Hnone.
  rewrite print_to_stdout. simpl.
  destruct (stdout_closed w); simpl; split; try done.
Qed.

Lemma parse_log_file_missing_witness :
  (parse_log_file "missing.log" (set_files {["run.log" := "x"]} w0)).1 = Ok [].
Proof.
  refine (proj1 (proj2
    (parse_log_file_missing "missing.log" (set_files {["run.log" := "x"]} w0) _) _));
    reflexivity.
Defined.

(** *** What the matcher decides *)

Lemma starts_with_app l rest : starts_with l (l ++ rest) = true.
Proof.
  induction l as [|a l IH]; simpl; [done|].
  by rewrite Ascii.eqb_refl, IH.
Qed.

Lemma starts_with_inv l s :
  starts_with l s = true -> s = l ++ drop (length l) s.
Proof.
  revert s. induction l as [|a l IH]; intros s H; simpl in *; [done|].
  destruct s as [|b s]; [done|].
  apply andb_prop in H as [Hab Hl]. apply Ascii.eqb_eq in Hab as ->.
  simpl. f_equal. by apply IH.
Qed.

Section Repetition.
Context {R : Type} (c : ascii -> bool) (k : list ascii -> option R).

Lemma lazy_star_sound s x :
  lazy_star c k s = Some x ->
  exists s1 s2, s = s1 ++ s2 /\ all_in c s1 /\ k s2 = Some x.
Proof.
  induction s as [|a s IH]; simpl.
  - destruct (k []) eqn:Hk; [|done]. intros [= ->]. exists [], []; split_all.
  - destruct (k (a :: s)) eqn:Hk.
    + intros [= ->]. exists [], (a :: s); split_all.
    + destruct (c a) eqn:Hc; [|done]. intros H.
      destruct (IH H) as (s1 & s2 & -> & Hall & Hk2).
      exists (a :: s1), s2. split; [done|]. split; [|done]. by constructor.
Qed.

Lemma lazy_star_complete s1 s2 :
  all_in c s1 -> is_Some (k s2) -> is_Some (lazy_star c k (s1 ++ s2)).
Proof.
  intros Hall Hk. induction Hall as [|a s1 Hc _ IH]; simpl.
  - destruct s2; simpl; (destruct (k _); [done|by destruct Hk]).
  - destruct (k (a :: s1 ++ s2)); [done|]. by rewrite Hc.
Qed.

Lemma greedy_star_sound s x :
  greedy_star c k s = Some x ->
  exists s1 s2, s = s1 ++ s2 /\ all_in c s1 /\ k s2 = Some x.
Proof.
  induction s as [|a s IH]; simpl.
  - intros H. exists [], []; split_all.
  - destruct (c a) eqn:Hc.
    + destruct (greedy_star c k s) eqn:Hg.
      * intros [= ->]. destruct (IH eq_refl) as (s1 & s2 & -> & Hall & Hk2).
        exists (a :: s1), s2. split; [done|]. split; [|done]. by constructor.
      * intros H. exists [], (a :: s); split_all.
    + intros H. exists [], (a :: s); split_all.
Qed.

Lemma greedy_star_here s : is_Some (k s) -> is_Some (greedy_star c k s).
Proof.
  intros Hk. destruct s as [|a s]; simpl; [done|].
  destruct (c a); [|done]. by destruct (greedy_star c k s).
Qed.

Lemma greedy_star_complete s1 s2 :
  all_in c s1 -> is_Some (k s2) -> is_Some (greedy_star c k (s1 ++ s2)).
Proof.
  intros Hall Hk. induction Hall as [|a s1 Hc _ IH]; simpl.
  - by apply greedy_star_here.
  - rewrite Hc. by destruct (greedy_star c k (s1 ++ s2)); [|destruct IH].
Qed.

Lemma greedy_plus_sound s x :
  greedy_plus c k s = Some x ->
  exists s1 s2, s = s1 ++ s2 /\ (s1 <> [] /\ all_in c s1) /\ k s2 = Some x.
Proof.
  destruct s as [|a s]; simpl; [done|].
  destruct (c a) eqn:Hc; [|done]. intros H.
  destruct (greedy_star_sound s x H) as (s1 & s2 & -> & Hall & Hk2).
  exists (a :: s1), s2. split; [done|]. split; [|done].
  split; [done|]. by constructor.
Qed.

Lemma greedy_plus_complete s1 s2 :
  s1 <> [] -> all_in c s1 -> is_Some (k s2) -> is_Some (greedy_plus c k (s1 ++ s2)).
Proof.
  intros Hne Hall Hk. destruct Hall as [|a s1 Hc Hall]; [done|]. simpl.
  rewrite Hc. by apply greedy_star_complete.
Qed.
End Repetition.

Lemma rmatch_sound r : forall s g k x,
  rmatch r s g k = Some x ->
  exists s1 s2 g', s = s1 ++ s2 /\ Matches r s1 /\ k s2 g' = Some x.
Proof.
  induction r as [l|c|c|r1 IH1|r1 IH1 r2 IH2|name r1 IH1]; intros s g k x H; simpl in H.
  - destruct (starts_with l s) eqn:Hl; [|done].
    exists l, (drop (length l) s), g. split; [by apply starts_with_inv|done].
  - destruct (lazy_star_sound c _ s x H) as (s1 & s2 & ? & ? & ?).
    by exists s1, s2, g.
  - destruct (greedy_plus_sound c _ s x H) as (s1 & s2 & ? & ? & ?).
    by exists s1, s2, g.
  - destruct (rmatch r1 s g k) as [y|] eqn:H1.
    + injection H as ->. destruct (IH1 _ _ _ _ H1) as (s1 & s2 & g' & ? & ? & ?).
      exists s1, s2, g'. simpl. auto.
    + exists [], s, g. simpl. auto.
  - destruct (IH1 _ _ _ _ H) as (s1 & s' & g1 & -> & Hm1 & H2).
    destruct (IH2 _ _ _ _ H2) as (s2 & s3 & g2 & -> & Hm2 & H3).
    exists (s1 ++ s2), s3, g2. split; [by rewrite app_assoc|].
    split; [|done]. by exists s1, s2.
  - destruct (IH1 _ _ _ _ H) as (s1 & s2 & g' & ? & ? & ?).
    by exists s1, s2, (<[name := take (length s - length s2) s]> g').
Qed.

Lemma rmatch_complete r : forall s1 s2 g k,
  Matches r s1 -> (forall g', is_Some (k s2 g')) ->
  is_Some (rmatch r (s1 ++ s2) g k).
Proof.
  induction r as [l|c|c|r1 IH1|r1 IH1 r2 IH2|name r1 IH1]; intros s1 s2 g k Hm Hk;
    simpl in Hm |- *.
  - subst s1. rewrite starts_with_app, drop_app_length. apply Hk.
  - apply lazy_star_complete; [done|apply Hk].
  - destruct Hm. apply greedy_plus_complete; [done|done|apply Hk].
  - destruct Hm as [->|Hm].
    + simpl. destruct (rmatch r1 s2 g k); [done|apply Hk].
    + destruct (IH1 s1 s2 g k Hm Hk) as [y Hy]. by rewrite Hy.
  - destruct Hm as (a & b & -> & Ha & Hb). rewrite <- app_assoc.
    apply IH1; [done|]. intros g'. by apply IH2.
  - apply IH1; [done|]. intros g'. apply Hk.
Qed.

(** [search] finds a match exactly when some part of the text matches. *)
Lemma search_iff r s :
  is_Some (search r s) <->
  exists pre mid post, s = pre ++ mid ++ post /\ Matches r mid.
Proof.
  split.
  - induction s as [|a s IH]; simpl.
    + destruct (rmatch r [] ∅ _) as [g|] eqn:H; [|by intros [? ?]].
      intros _. destruct (rmatch_sound _ _ _ _ _ H) as (s1 & s2 & _ & ? & ? & _).
      by exists [], s1, s2.
    + destruct (rmatch r (a :: s) ∅ _) as [g|] eqn:H.
      * intros _. destruct (rmatch_sound _ _ _ _ _ H) as (s1 & s2 & _ & ? & ? & _).
        by exists [], s1, s2.
      * intros Hs. destruct (IH Hs) as (pre & mid & post & -> & Hm).
        by exists (a :: pre), mid, post.
  - intros (pre & mid & post & -> & Hm).
    induction pre as [|a pre IH].
    + simpl.
      destruct (rmatch_complete r mid post ∅ (fun _ g => Some g) Hm) as [g Hg]; [done|].
      destruct mid, post; simpl in *; by rewrite Hg.
    + simpl. by destruct (rmatch r _ ∅ _).
Qed.

Lemma search_pattern_iff line : is_Some (search pattern line) <-> line_matches line.
Proof.
  rewrite search_iff. unfold pattern, line_matches. cbn [Matches]. split.
  - intros (pre & mid & post & -> & name & s2 & -> & Hname & l1 & s4 & -> & -> &
            fit & s6 & -> & (sg & num & -> & Hsg & Hnum) &
            best & s8 & -> & Hbest & l2 & s10 & -> & -> & time & l3 & -> & Htime & ->).
    exists pre, name, (sg ++ num), best, time, post.
    split; [by rewrite <- !app_assoc|]. split; [done|]. split; [|split; [|done]].
    + destruct Hsg as [-> | ->]; [by left|]. right. by exists num.
    + destruct Hbest as [->|(l & b & -> & -> & Hb)]; [by left|]. right. by exists b.
  - intros (pre & name & fit & best & time & post & -> & Hname & Hfit & Hbest & Htime).
    exists pre, (name ++ txt " NEW BEST: " ++ fit ++ best ++ txt " - Time: " ++ time ++ txt "s"),
      post.
    split; [by rewrite <- !app_assoc|].
    exists name, (txt " NEW BEST: " ++ fit ++ best ++ txt " - Time: " ++ time ++ txt "s").
    split; [done|]. split; [done|].
    exists (txt " NEW BEST: "), (fit ++ best ++ txt " - Time: " ++ time ++ txt "s").
    split; [done|]. split; [done|].
    exists fit, (best ++ txt " - Time: " ++ time ++ txt "s"). split; [done|]. split.
    { destruct Hfit as [Hn|(f & -> & Hn)].
      - exists [], fit. auto.
      - exists (txt "-"), f. split; [done|]. split; [|done]. by right. }
    exists best, (txt " - Time: " ++ time ++ txt "s"). split; [done|]. split.
    { destruct Hbest as [->|(b & -> & Hb)]; [by left|]. right.
      by exists (txt " - BEST: "), b. }
    exists (txt " - Time: "), (time ++ txt "s"). split; [done|]. split; [done|].
    by exists time, (txt "s").
Qed.

Lemma nonempty_last {A} (l : list A) : nonempty l = bool_decide (is_Some (last l)).
Proof.
  destruct l as [|a l]; [done|]. simpl.
  symmetry. apply bool_decide_eq_true. destruct (last_is_Some (a :: l)) as [_ H].
  by apply H.
Qed.

Lemma parse_loop_spec lines : forall data run_count last_time out,
  parse_loop lines data run_count last_time = Ok out ->
  acc_ok data run_count last_time ->
  exists new, out = data ++ new /\ extracted lines new /\ runs_from (last data) new.
Proof.
  induction lines as [|line rest IH]; intros data rc lt out H Hacc; cbn [parse_loop] in H.
  - injection H as <-. exists []. by rewrite app_nil_r.
  - destruct (contains (txt "NEW BEST") line) eqn:Hc.
    + destruct (search pattern line) as [m|] eqn:Hs.
      * destruct (py_float (group m "fitness")) as [fit|] eqn:Hf; [|discriminate H].
        destruct (py_float (group m "time")) as [t|] eqn:Ht; [|discriminate H].
        set (rc' := if nonempty data && SFltb t lt then S rc else rc) in H.
        set (e := mkEntry (strip (group m "metaheuristic")) fit t rc') in H.
        destruct (IH _ _ _ _ H) as (new & -> & Hex & Hruns).
        { unfold acc_ok. by rewrite last_snoc. }
        rewrite last_snoc in Hruns.
        exists (e :: new). split; [by rewrite <- app_assoc|]. split.
        -- left. split.
           ++ split; [done|]. apply search_pattern_iff. by rewrite Hs.
           ++ exists e, new. split; [done|]. split; [|done]. by exists m.
        -- split; [|done]. unfold acc_ok in Hacc. unfold run_rule.
           subst e rc'. cbn [run_number time_val]. rewrite nonempty_last.
           destruct (last data) as [p|].
           ++ destruct Hacc as [-> ->].
              rewrite bool_decide_eq_true_2 by done. done.
           ++ rewrite bool_decide_eq_false_2 by (by intros [? ?]). done.
      * destruct (IH _ _ _ _ H Hacc) as (new & -> & Hex & Hruns).
        exists new. split; [done|]. split; [|done]. right. split; [|done].
        intros [_ Hm]. apply search_pattern_iff in Hm. rewrite Hs in Hm. by destruct Hm.
    + destruct (IH _ _ _ _ H Hacc) as (new & -> & Hex & Hruns).
      exists new. split; [done|]. split; [|done]. right. split; [|done].
      intros [Hc' _]. congruence.
Qed.

Lemma parse_loop_returns lines : forall data run_count last_time,
  Forall numbers_accepted lines ->
  exists out, parse_loop lines data run_count last_time = Ok out.
Proof.
  induction lines as [|line rest IH]; intros data rc lt Hall; cbn [parse_loop].
  - by exists data.
  - inversion Hall as [|? ? Hline Hrest]; subst.
    destruct (contains (txt "NEW BEST") line) eqn:Hc; [|by apply IH].
    destruct (search pattern line) as [m|] eqn:Hs; [|by apply IH].
    destruct (Hline Hc m Hs) as [Hf Ht].
    destruct (py_float (group m "fitness")); [|discriminate Hf].
    destruct (py_float (group m "time")); [|discriminate Ht].
    by apply IH.
Qed.

(** The loop returns only if [float] accepted every number it read. *)
Lemma parse_loop_accepted lines : forall data run_count last_time out,
  parse_loop lines data run_count last_time = Ok out ->
  Forall numbers_accepted lines.
Proof.
  induction lines as [|line rest IH]; intros data rc lt out H; cbn [parse_loop] in H.
  - constructor.
  - destruct (contains (txt "NEW BEST") line) eqn:Hc.
    + destruct (search pattern line) as [m|] eqn:Hs.
      * destruct (py_float (group m "fitness")) as [fit|] eqn:Hf; [|discriminate H].
        destruct (py_float (group m "time")) as [t|] eqn:Ht; [|discriminate H].
        constructor; [|by eapply IH].
        intros _ m' Hm'. rewrite Hs in Hm'. injection Hm' as <-. by rewrite Hf, Ht.
      * constructor; [|by eapply IH]. intros _ m' Hm'. rewrite Hs in Hm'. discriminate Hm'.
    + constructor; [|by eapply IH]. intros Hc'. congruence.
Qed.

Lemma runs_from_sorted data : forall prev,
  runs_from prev data ->
  StronglySorted run_le data
  /\ forall p, prev = Some p -> Forall (run_le p) data.
Proof.
  induction data as [|e rest IH]; intros prev Hruns.
  - split; [constructor|]. intros p _. constructor.
  - destruct Hruns as [He Hrest]. destruct (IH _ Hrest) as [Hs Hall].
    specialize (Hall e eq_refl). split.
    + by constructor.
    + intros p ->. unfold run_rule in He.
      assert (Hpe : run_le p e).
      { unfold run_le. destruct (SFltb _ _); lia. }
      constructor; [done|].
      eapply Forall_impl; [exact Hall|]. unfold run_le in *. intros x Hx. lia.
Qed.

(** C8, counterexample: a line that contains [NEW BEST] and matches the
    pattern, but whose number [float] rejects; the exception leaves the loop
    and nothing is returned. *)
Lemma parser_raises_on_two_dots :
  selected two_dots
  /\ parse_lines [two_dots]
     = Raise (ValueError "could not convert string to float: '1.2.3'")
  /\ ~ parser_extracts_from_every_log.
Proof.
  split; [|split].
  - split; [reflexivity|]. apply search_pattern_iff.
    eexists. vm_compute. reflexivity.
  - vm_compute. reflexivity.
  - intros H. destruct (H [two_dots]) as (data & Hdata & _).
    vm_compute in Hdata. discriminate Hdata.
Qed.

(** C8, amended. For every sequence of lines in which [float] accepts the
    numbers of the lines the loop reads, the parser returns the entries of
    exactly the lines that contain [NEW BEST] and match the pattern, in their
    order; the first run number is 1, each later one is the one before plus one
    exactly when the time is strictly below the time of the entry before, and
    so the run numbers never decrease. *)
Theorem parse_lines_extracts (lines : list (list ascii)) :
  Forall numbers_accepted lines ->
  exists data,
    parse_lines lines = Ok data
    /\ extracted lines data
    /\ runs_from None data
    /\ StronglySorted run_le data.
Proof.
  intros Hall.
  destruct (parse_loop_returns lines [] 1 (S754_zero false) Hall) as [out Hout].
  exists out. split; [exact Hout|].
  destruct (parse_loop_spec lines [] 1 (S754_zero false) out Hout) as (new & -> & Hex & Hruns);
    [done|].
  simpl in *. split; [done|]. split; [done|].
  by destruct (runs_from_sorted new None Hruns).
Qed.

Lemma parse_lines_extracts_witness :
  exists data,
    parse_lines sample_log = Ok data
    /\ extracted sample_log data
    /\ runs_from None data
    /\ StronglySorted run_le data.
Proof.
  apply (parse_lines_extracts sample_log).
  unfold sample_log.
  repeat (apply List.Forall_cons; [intros Hc m Hs|]); [..|apply List.Forall_nil].
  all: first [ discriminate Hc
             | vm_compute in Hs;
               first [discriminate Hs | injection Hs as <-; split; reflexivity] ].
Defined.

(** The sample, evaluated: three entries, the third opens the second run. *)
Example parse_lines_sample :
  option_map (map (fun e => (string_of_list_ascii (meta_name e), run_number e)))
             (match parse_lines sample_log with Ok d => Some d | Raise _ => None end)
  = Some [("SA 0", 1); ("pool", 1); ("GA", 2)].
Proof. vm_compute. reflexivity. Qed.

(* EXTRA-BEGIN *)

(** * Further properties of the sinks *)

Lemma keys_allowed_spec (kwargs : gmap string pyval) :
  forallb (fun k => bool_decide (k ∈ print_keywords)) (map fst (map_to_list kwargs)) = true
  <-> forall k, is_Some (kwargs !! k) -> k ∈ print_keywords.
Proof.
  rewrite forallb_forall. split.
  - intros H k [v Hv]. eapply bool_decide_eq_true_1.
    apply H. apply in_map_iff. exists (k, v). split; [done|].
    apply list_elem_of_In. by apply elem_of_map_to_list.
  - intros H k Hin. apply bool_decide_eq_true_2.
    apply in_map_iff in Hin as ([k' v] & <- & Hin).
    apply list_elem_of_In, elem_of_map_to_list in Hin. apply H. by exists v.
Qed.

Lemma print_separator_insert name dflt key v (kwargs : gmap string pyval) :
  key <> name ->
  print_separator name dflt (<[key := v]> kwargs) = print_separator name dflt kwargs.
Proof. intros Hne. unfold print_separator. by rewrite lookup_insert_ne. Qed.

Lemma print_separator_delete name dflt key (kwargs : gmap string pyval) :
  key <> name ->
  print_separator name dflt (delete key kwargs) = print_separator name dflt kwargs.
Proof. intros Hne. unfold print_separator. by rewrite lookup_delete_ne. Qed.

Lemma print_text_insert args key v (kwargs : gmap string pyval) :
  key <> "sep" -> key <> "end" ->
  print_text args (<[key := v]> kwargs) = print_text args kwargs.
Proof.
  intros H1 H2. unfold print_text. by rewrite !print_separator_insert.
Qed.

Lemma print_text_delete args key (kwargs : gmap string pyval) :
  key <> "sep" -> key <> "end" ->
  print_text args (delete key kwargs) = print_text args kwargs.
Proof.
  intros H1 H2. unfold print_text. by rewrite !print_separator_delete.
Qed.

(** When [TerminalLogger.log] returns, it has written the printed text to the
    standard output and done nothing else. *)
Lemma TerminalLogger_log_ok args kwargs w w1 :
  TerminalLogger_log args kwargs w = (Ok tt, w1) ->
  exists text,
    print_text args kwargs = Ok text
    /\ kwargs !! "flush" = None
    /\ w1 = record (EvWrite FStdout text) (set_stdout (stdout w +:+ text) w).
Proof.
  unfold TerminalLogger_log, call_with_keyword, builtin_print, write. io_unfold.
  destruct (kwargs !! "flush") eqn:Hflush; [done|]. simpl.
  destruct (negb _); [done|].
  rewrite print_text_insert by done.
  destruct (print_text args kwargs) as [text|e]; [|done]. simpl.
  rewrite lookup_insert_ne by done.
  intros H. exists text. split; [done|]. split; [done|].
  destruct (kwargs !! "file") as [[]|]; simpl in H;
    try discriminate H; destruct (stdout_closed w); by injection H.
Qed.

(** When [TerminalLogger.log] raises, nothing was written anywhere. *)
Lemma TerminalLogger_log_raise args kwargs w e w1 :
  TerminalLogger_log args kwargs w = (Raise e, w1) ->
  stdout w1 = stdout w /\ stderr w1 = stderr w /\ files w1 = files w.
Proof.
  unfold TerminalLogger_log, call_with_keyword, builtin_print, write. io_unfold.
  destruct (kwargs !! "flush"); simpl; [by intros [= _ <-]|].
  destruct (negb _); [by intros [= _ <-]|].
  destruct (print_text args _) as [text|e']; simpl; [|by intros [= _ <-]].
  destruct (<["flush":=PyBool true]> kwargs !! "file") as [[]|]; simpl;
    try (by intros [= _ <-]);
    destruct (stdout_closed w); intros H;
    first [discriminate H | by injection H as _ <-].
Qed.

(** When [FileLogger.log] returns, the file holds what it held followed by the
    printed text, and the standard streams are as they were. *)
Lemma FileLogger_log_ok path args kwargs w w1 :
  FileLogger_log path args kwargs w = (Ok tt, w1) ->
  exists text,
    print_text args kwargs = Ok text
    /\ kwargs !! "file" = None
    /\ (path ∉ locked w)
    /\ files w1 !! path = Some (default "" (files w !! path) +:+ text)
    /\ (forall other, other <> path -> files w1 !! other = files w !! other)
    /\ stdout w1 = stdout w /\ stderr w1 = stderr w.
Proof.
  unfold FileLogger_log, open_write, call_with_keyword, builtin_print, write. io_unfold.
  destruct (decide (path ∈ locked w)); [done|]. simpl.
  destruct (kwargs !! "file"); [done|]. simpl.
  destruct (negb _); [done|].
  destruct (print_text args kwargs) as [text|e]; [|done]. simpl.
  intros [= <-]. exists text. simpl.
  rewrite !lookup_insert_eq. simpl.
  repeat split; try done.
  intros other Hne. by rewrite !lookup_insert_ne.
Qed.

(** X1. Whenever [DualLogger.log] returns, the standard output and the log
    file have received the same text, each at its end; the standard error and
    the other files are untouched. *)
Theorem dual_log_same_text (path : string) (args : list pyval)
    (kwargs : gmap string pyval) (w w' : World) :
  DualLogger_log TerminalLogger (FileLogger path) args kwargs w = (Ok tt, w') ->
  exists text,
    print_text args kwargs = Ok text
    /\ stdout w' = stdout w +:+ text
    /\ files w' !! path = Some (default "" (files w !! path) +:+ text)
    /\ (forall other, other <> path -> files w' !! other = files w !! other)
    /\ stderr w' = stderr w.
Proof.
  rewrite DualLogger_log_unfold. cbn [log].
  destruct (TerminalLogger_log args kwargs w) as [[[]|e] w1] eqn:Ht; [|done].
  intros Hf.
  destruct (TerminalLogger_log_ok _ _ _ _ Ht) as (text & Htext & _ & ->).
  destruct (FileLogger_log_ok _ _ _ _ _ Hf) as (text' & Htext' & _ & _ & Hfile & Hother & Hout & Herr).
  rewrite Htext in Htext'. injection Htext' as <-.
  exists text. simpl in *. by rewrite Hout, Herr.
Qed.

Lemma dual_log_same_text_witness :
  exists text,
    print_text [PyStr "A"; PyInt 1] {["sep" := PyStr "="]} = Ok text
    /\ text = "A=1" +:+ NL.
Proof.
  destruct (DualLogger_log TerminalLogger (FileLogger "log.txt") [PyStr "A"; PyInt 1]
              {["sep" := PyStr "="]} w0) as [r w'] eqn:Hd.
  assert (Hr : r = Ok tt).
  { change r with (r, w').1. rewrite <- Hd. vm_compute. reflexivity. }
  subst r.
  destruct (dual_log_same_text _ _ _ _ _ Hd) as (text & Htext & _).
  exists text. split; [exact Htext|].
  vm_compute in Htext. by injection Htext as <-.
Defined.

(** X2. A failed [TerminalLogger.log] has written nothing: the standard
    streams and the files are as they were. *)
Theorem terminal_log_failure_writes_nothing (args : list pyval)
    (kwargs : gmap string pyval) (w w' : World) (e : exn) :
  TerminalLogger_log args kwargs w = (Raise e, w') ->
  stdout w' = stdout w /\ stderr w' = stderr w /\ files w' = files w.
Proof. apply TerminalLogger_log_raise. Qed.

Lemma terminal_log_failure_writes_nothing_witness :
  stdout (TerminalLogger_log [PyStr "x"] {["sep" := PyInt 3]} w0).2 = "".
Proof.
  destruct (TerminalLogger_log [PyStr "x"] {["sep" := PyInt 3]} w0) as [r w'] eqn:Ht.
  assert (Hr : r = Raise (TypeError "sep must be None or a string, not int")).
  { change r with (r, w').1. rewrite <- Ht. vm_compute. reflexivity. }
  subst r. exact (proj1 (terminal_log_failure_writes_nothing _ _ _ _ _ Ht)).
Defined.

Lemma keys_allowed_delete_flush (kwargs : gmap string pyval) :
  forallb (fun k => bool_decide (k ∈ print_keywords))
          (map fst (map_to_list (delete "flush" kwargs)))
  = forallb (fun k => bool_decide (k ∈ print_keywords)) (map fst (map_to_list kwargs)).
Proof.
  apply Bool.eq_iff_eq_true. rewrite !keys_allowed_spec. split.
  - intros H k Hk. destruct (decide (k = "flush")) as [->|Hne].
    + unfold print_keywords. set_solver.
    + apply H. by rewrite lookup_delete_ne.
  - intros H k [v Hv]. apply H. apply lookup_delete_Some in Hv as [_ Hv]. by exists v.
Qed.

(** X3. [FileLogger.log] takes a [flush] keyword (the one [TerminalLogger.log]
    rejects): the call does exactly what it does without the keyword. *)
Theorem file_log_ignores_flush (path : string) (args : list pyval)
    (kwargs : gmap string pyval) (v : pyval) (w : World) :
  kwargs !! "flush" = Some v ->
  FileLogger_log path args kwargs w
  = FileLogger_log path args (delete "flush" kwargs) w.
Proof.
  intros _. unfold FileLogger_log, open_write, call_with_keyword, builtin_print.
  io_unfold. destruct (decide (path ∈ locked w)); [done|].
  rewrite lookup_delete_ne by done.
  destruct (kwargs !! "file"); [done|].
  by rewrite keys_allowed_delete_flush, print_text_delete.
Qed.

Lemma file_log_ignores_flush_witness :
  (FileLogger_log "log.txt" [PyStr "x"] {["flush" := PyBool false]} w0).1 = Ok tt.
Proof.
  rewrite (file_log_ignores_flush "log.txt" [PyStr "x"] {["flush" := PyBool false]}
             (PyBool false) w0); reflexivity.
Defined.

Definition duplicate_file : exn :=
  TypeError "print() got multiple values for keyword argument 'file'".

(** X4. A payload with a [file] keyword makes [FileLogger.log] raise
    [TypeError], but only after the log file has been opened: a missing file
    now exists and is empty, an existing one keeps its content, and nothing is
    appended. *)
Theorem file_keyword_rejected_after_open (path : string) (args : list pyval)
    (kwargs : gmap string pyval) (v : pyval) (w : World) :
  kwargs !! "file" = Some v ->
  path ∉ locked w ->
  let r := FileLogger_log path args kwargs w in
  r.1 = Raise duplicate_file
  /\ files r.2 !! path = Some (default "" (files w !! path))
  /\ io_log r.2 = io_log w ++ [EvOpen path "a"].
Proof.
  intros Hk Hfree. unfold FileLogger_log, open_write, call_with_keyword.
  io_unfold. destruct (decide (path ∈ locked w)); [done|]. simpl.
  rewrite Hk. simpl. by rewrite lookup_insert_eq.
Qed.

Lemma file_keyword_rejected_after_open_witness :
  files (FileLogger_log "new.txt" [PyStr "x"] {["file" := PyNone]} w0).2 !! "new.txt"
  = Some "".
Proof.
  refine (proj1 (proj2 (file_keyword_rejected_after_open "new.txt" [PyStr "x"]
    {["file" := PyNone]} PyNone w0 _ _))); [reflexivity|apply not_elem_of_empty].
Defined.

(** X5. With [file=None] in the payload the terminal prints as usual, and
    then the file write raises: [DualLogger.log] fails although the line is
    on the standard output, and the log file does not get it. *)
Theorem dual_file_none_half_written (path : string) (args : list pyval)
    (kwargs : gmap string pyval) (w w1 : World) :
  kwargs !! "file" = Some PyNone ->
  TerminalLogger_log args kwargs w = (Ok tt, w1) ->
  path ∉ locked w ->
  let r := DualLogger_log TerminalLogger (FileLogger path) args kwargs w in
  r.1 = Raise duplicate_file
  /\ (exists text, print_text args kwargs = Ok text /\ stdout r.2 = stdout w +:+ text)
  /\ files r.2 !! path = Some (default "" (files w !! path)).
Proof.
  intros Hk Ht Hfree. simpl. rewrite DualLogger_log_unfold. cbn [log]. rewrite Ht.
  destruct (TerminalLogger_log_ok _ _ _ _ Ht) as (text & Htext & _ & ->).
  unfold FileLogger_log, open_write, call_with_keyword. io_unfold. simpl.
  destruct (decide (path ∈ locked w)); [done|]. simpl. rewrite Hk. simpl.
  split; [done|]. split; [by exists text|]. by rewrite lookup_insert_eq.
Qed.

Lemma dual_file_none_half_written_witness :
  let r := DualLogger_log TerminalLogger (FileLogger "log.txt") [PyStr "x"]
             {["file" := PyNone]} w0 in
  exists text, print_text [PyStr "x"] {["file" := PyNone]} = Ok text
               /\ stdout r.2 = stdout w0 +:+ text.
Proof.
  destruct (TerminalLogger_log [PyStr "x"] {["file" := PyNone]} w0) as [r1 w1] eqn:Ht.
  assert (Hr : r1 = Ok tt).
  { change r1 with (r1, w1).1. rewrite <- Ht. vm_compute. reflexivity. }
  subst r1.
  refine (proj1 (proj2 (dual_file_none_half_written "log.txt" [PyStr "x"]
    {["file" := PyNone]} w0 w1 _ Ht _))); [reflexivity|apply not_elem_of_empty].
Defined.

Definition permission_denied (path : string) : exn :=
  PermissionError ("[Errno 13] Permission denied: '" +:+ path +:+ "'").

(** X6. On a path that cannot be opened for writing, the constructors with
    [reset] raise and leave the files alone; without [reset] they return
    without touching anything, and the error shows only when [log] is called,
    which raises it and writes nothing. *)
Theorem unwritable_path_surfaces (path now : string) (args : list pyval)
    (kwargs : gmap string pyval) (w : World) :
  path ∈ locked w ->
  (FileLogger_init path true now w).1 = Raise (permission_denied path)
  /\ (DualLogger_init path true now w).1 = Raise (permission_denied path)
  /\ files (DualLogger_init path true now w).2 = files w
  /\ DualLogger_init path false now w = (Ok (DualLogger TerminalLogger (FileLogger path)), w)
  /\ (FileLogger_log path args kwargs w).1 = Raise (permission_denied path)
  /\ files (FileLogger_log path args kwargs w).2 = files w.
Proof.
  intros Hlocked.
  unfold DualLogger_init, FileLogger_init, FileLogger_log, open_write. io_unfold.
  destruct (decide (path ∈ locked w)); [|done]. done.
Qed.

Lemma unwritable_path_surfaces_witness :
  (FileLogger_log "ro.txt" [PyStr "x"] ∅
     (mkWorld false "" "" ∅ {["ro.txt"]} [])).1
  = Raise (permission_denied "ro.txt").
Proof.
  refine (proj1 (proj2 (proj2 (proj2 (proj2
    (unwritable_path_surfaces "ro.txt" "now" [PyStr "x"] ∅
       (mkWorld false "" "" ∅ {["ro.txt"]} []) _)))))).
  simpl. set_solver.
Defined.

(** * Further properties of the manager and its listener *)

Lemma filter_all {A} (P : A -> Prop) `{forall x, Decision (P x)} (l : list A) :
  Forall P l -> filter P l = l.
Proof.
  induction 1 as [|x l Hx _ IH]; [done|].
  rewrite filter_cons, decide_True by done. by rewrite IH.
Qed.

Lemma run_listener_cons k s s1 :
  exec AListener s = Some s1 ->
  run (repeat AListener (S k)) s = run (repeat AListener k) s1.
Proof. intros H. cbn [repeat run]. by rewrite H. Qed.

(** The listener is the only consumer: when it is about to call
    [queue.get()], the queue is not empty. *)
Record Inv2 (s : Sys) : Prop := mkInv2 {
  inv2_get : listener_process s = Some LGet -> queue s <> [];
  inv2_slept : slept_ms s = sleep_ms * length (sleeps s)
}.

Lemma exec_Inv2 a s s' : exec a s = Some s' -> Inv2 s -> Inv2 s'.
Proof.
  intros Hexec [Hget Hslept]. destruct a; simpl in Hexec.
  - injection Hexec as <-. constructor; simpl; [|done].
    intros Hl. unfold WorkerLogger_log. by destruct (queue s).
  - destruct (listener_process s); [done|]. injection Hexec as <-.
    by constructor.
  - destruct (stop_call s); try done. injection Hexec as <-. by constructor.
  - destruct (stop_call s); try done.
    destruct (listener_process s) as [pc|] eqn:Hl; [|done].
    destruct (finished pc); [|done]. injection Hexec as <-.
    constructor; simpl; rewrite ?Hl; done.
  - destruct (listener_process s) as [pc|] eqn:Hl; [|done].
    destruct pc; simpl in Hexec; try done.
    + injection Hexec as <-. destruct (stop_event s); by constructor.
    + injection Hexec as <-. destruct (queue s); by constructor.
    + injection Hexec as <-. destruct (queue s) eqn:Hq; constructor; simpl;
        rewrite ?Hq; done.
    + destruct (queue s); [done|]. injection Hexec as <-.
      rewrite handle_payload_returns. by constructor.
    + injection Hexec as <-. constructor; [by simpl|].
      cbn [slept_ms sleeps]. rewrite length_app, Hslept. cbn [length].
      unfold sleep_ms. lia.
Qed.

Lemma reachable_Inv2 strategy w s :
  reachable (ParallelLogManager_init strategy w) s -> Inv2 s.
Proof.
  induction 1 as [|s a s' _ IH Hexec].
  - by constructor.
  - by apply (exec_Inv2 a s).
Qed.

(** X7. The listener never blocks: in every reachable state, unless it has
    returned, its next step can be taken; in particular [queue.get()] always
    finds a message. *)
Theorem listener_never_blocks (strategy : LogStrategy) (w : World) (s : Sys) (pc : lpc) :
  reachable (ParallelLogManager_init strategy w) s ->
  listener_process s = Some pc -> pc <> LExit ->
  is_Some (exec AListener s).
Proof.
  intros Hreach Hpc Hne. simpl. rewrite Hpc.
  pose proof (reachable_Inv _ _ _ Hreach) as HI.
  pose proof (reachable_Inv2 _ _ _ Hreach) as HI2.
  destruct pc; simpl; try done.
  - pose proof (inv2_get s HI2 Hpc). by destruct (queue s).
  - by destruct (inv_alive s HI e).
Qed.

Lemma listener_never_blocks_witness :
  is_Some (exec AListener
             (set_pc LGet (worker_log 1 [PyStr "x"] ∅
                (set_pc LInner (ParallelLogManager_init TerminalLogger w0))))).
Proof.
  refine (listener_never_blocks TerminalLogger w0 _ LGet _ _ _); [|reflexivity|done].
  apply reachable_run with (ParallelLogManager_init TerminalLogger w0)
    [AStart; AListener; ALog 1 [PyStr "x"] ∅; AListener]; [constructor|reflexivity].
Defined.

(** X8. The listener does not return before [stop()] is called. *)
Theorem listener_waits_for_stop (strategy : LogStrategy) (w : World) (s : Sys) :
  reachable (ParallelLogManager_init strategy w) s ->
  stop_call s = StopNotCalled ->
  listener_process s <> Some LExit /\ stop_event s = false.
Proof.
  intros Hreach Hcall. pose proof (reachable_Inv _ _ _ Hreach) as HI.
  pose proof (inv_mark s HI) as Hmark. split.
  - intros Hl. destruct (inv_exit s HI Hl) as (n & Hn & _).
    rewrite Hn in Hmark. by destruct Hmark as (_ & _ & ?).
  - destruct (stop_mark s); [|by destruct Hmark].
    by destruct Hmark as (_ & _ & ?).
Qed.

Lemma listener_waits_for_stop_witness :
  exists s,
    run (AStart :: ALog 1 [PyStr "x"] ∅ :: repeat AListener 9)
        (ParallelLogManager_init TerminalLogger w0) = Some s
    /\ listener_process s <> Some LExit.
Proof.
  destruct (run (AStart :: ALog 1 [PyStr "x"] ∅ :: repeat AListener 9)
              (ParallelLogManager_init TerminalLogger w0)) as [s|] eqn:Hs.
  - exists s. split; [reflexivity|].
    refine (proj1 (listener_waits_for_stop TerminalLogger w0 s _ _)).
    + apply reachable_run with (ParallelLogManager_init TerminalLogger w0)
        (AStart :: ALog 1 [PyStr "x"] ∅ :: repeat AListener 9); [constructor|done].
    + assert (H : option_map stop_call
                    (run (AStart :: ALog 1 [PyStr "x"] ∅ :: repeat AListener 9)
                       (ParallelLogManager_init TerminalLogger w0)) = Some StopNotCalled)
        by (vm_compute; reflexivity).
      rewrite Hs in H. simpl in H. by injection H.
  - exfalso.
    assert (H : is_Some (run (AStart :: ALog 1 [PyStr "x"] ∅ :: repeat AListener 9)
                           (ParallelLogManager_init TerminalLogger w0)))
      by (vm_compute; eexists; reflexivity).
    rewrite Hs in H. by destruct H.
Defined.

(** Scheduled alone, the listener returns within [bound] steps with an empty
    queue, having handed [dl] to the strategy. *)
Definition exits_within (bound : nat) (s : Sys) (dl : list msg) : Prop :=
  exists k s', k <= bound
    /\ run (repeat AListener k) s = Some s'
    /\ listener_process s' = Some LExit /\ queue s' = []
    /\ delivered s' = dl.

Lemma exits_within_step bound s s1 dl :
  exec AListener s = Some s1 -> exits_within bound s1 dl ->
  exits_within (S bound) s dl.
Proof.
  intros Hexec (k & s' & Hk & Hrun & Hrest).
  exists (S k), s'. split; [lia|]. split; [|done].
  by rewrite (run_listener_cons k s s1).
Qed.

Lemma exits_within_le b1 b2 s dl :
  b1 <= b2 -> exits_within b1 s dl -> exits_within b2 s dl.
Proof.
  intros Hle (k & s' & Hk & Hrest). exists k, s'. split; [lia|done].
Qed.

Lemma exits_from_inner s :
  listener_process s = Some LInner -> stop_event s = true ->
  exits_within (2 * length (queue s) + 4) s
    (delivered s ++ filter unpackable (queue s)).
Proof.
  intros Hpc Hev.
  destruct (listener_exits_from_inner s Hpc Hev) as (s' & ? & ? & ? & ?).
  by exists (2 * length (queue s) + 4), s'.
Qed.

Lemma exits_from_outer_empty s :
  listener_process s = Some LOuterEmpty -> stop_event s = true ->
  exits_within (2 * length (queue s) + 5) s
    (delivered s ++ filter unpackable (queue s)).
Proof.
  intros Hpc Hev. destruct (queue s) as [|m q] eqn:Hq.
  - exists 1, (set_pc LExit s). split; [simpl; lia|].
    cbn [repeat run]. unfold exec. rewrite Hpc. cbn [listener_step]. rewrite Hq.
    split; [done|]. simpl. by rewrite Hq, filter_nil, app_nil_r.
  - replace (2 * length (m :: q) + 5) with (S (2 * length (queue (set_pc LInner s)) + 4))
      by (simpl; rewrite Hq; simpl; lia).
    apply exits_within_step with (set_pc LInner s).
    + unfold exec. rewrite Hpc. cbn [listener_step]. by rewrite Hq.
    + rewrite <- Hq. by apply (exits_from_inner (set_pc LInner s)).
Qed.

Lemma exits_from_outer s :
  listener_process s = Some LOuter -> stop_event s = true ->
  exits_within (2 * length (queue s) + 6) s
    (delivered s ++ filter unpackable (queue s)).
Proof.
  intros Hpc Hev.
  replace (2 * length (queue s) + 6) with (S (2 * length (queue s) + 5)) by lia.
  apply exits_within_step with (set_pc LOuterEmpty s).
  - unfold exec. rewrite Hpc. cbn [listener_step]. by rewrite Hev.
  - by apply (exits_from_outer_empty (set_pc LOuterEmpty s)).
Qed.

(** From any control point: the bound is two steps per waiting message and at
    most seven more. *)
Lemma listener_reaches_exit s pc :
  listener_process s = Some pc -> finished pc = false ->
  stop_event s = true -> (pc = LGet -> queue s <> []) ->
  exits_within (2 * length (queue s) + 7) s
    (delivered s ++ filter unpackable (queue s)).
Proof.
  intros Hpc Hfin Hev Hget. destruct pc; try discriminate Hfin.
  - eapply exits_within_le; [|by apply exits_from_outer]. lia.
  - eapply exits_within_le; [|by apply exits_from_outer_empty]. lia.
  - eapply exits_within_le; [|by apply exits_from_inner]. lia.
  - destruct (queue s) as [|m q] eqn:Hq; [by destruct Hget|].
    set (s1 := mkSys (strategy s) q (stop_event s) (Some LInner) (stop_call s)
                 (handle_payload (strategy s) (body m) (world s)).2 (history s)
                 (delivered s ++ (if is_Ok (unpack (body m)) then [m] else []))
                 (stop_mark s) (sleeps s) (slept_ms s)).
    assert (Hexec : exec AListener s = Some s1).
    { unfold exec. rewrite Hpc. cbn [listener_step]. rewrite Hq.
      by rewrite handle_payload_returns. }
    pose proof (exits_from_inner s1 eq_refl Hev) as H1.
    eapply exits_within_le; [|eapply exits_within_step; [exact Hexec|]].
    2:{ replace (delivered s ++ filter unpackable (m :: q))
          with (delivered s1 ++ filter unpackable (queue s1)); [exact H1|].
        subst s1. cbn [delivered queue]. rewrite filter_cons. unfold unpackable at 2.
        destruct (decide (is_Ok (unpack (body m)) = true)) as [Hm|Hm].
        - rewrite Hm. by rewrite <- app_assoc.
        - destruct (is_Ok (unpack (body m))); [done|]. by rewrite app_nil_r. }
    subst s1. cbn [queue length]. lia.
  - set (s1 := mkSys (strategy s) (queue s) (stop_event s) (Some LOuter) (stop_call s)
                 (world s) (history s) (delivered s) (stop_mark s)
                 (sleeps s ++ [(stop_event s, length (queue s))])
                 (slept_ms s + sleep_ms)).
    assert (Hexec : exec AListener s = Some s1).
    { unfold exec. by rewrite Hpc. }
    replace (2 * length (queue s) + 7) with (S (2 * length (queue s1) + 6))
      by (subst s1; cbn [queue]; lia).
    apply exits_within_step with s1; [done|].
    by apply (exits_from_outer s1).
Qed.

(** X9. Once the event is set, the listener returns: from every reachable
    state in which it runs, if only the listener moves, it reaches its return
    within two steps per waiting message and seven more, with the queue empty
    and every waiting message handed to the strategy in the queue's order. *)
Theorem listener_terminates (strategy : LogStrategy) (w : World) (s : Sys) (pc : lpc) :
  reachable (ParallelLogManager_init strategy w) s ->
  listener_process s = Some pc -> pc <> LExit ->
  stop_event s = true ->
  exists k s',
    k <= 2 * length (queue s) + 7
    /\ run (repeat AListener k) s = Some s'
    /\ listener_process s' = Some LExit /\ queue s' = []
    /\ delivered s' = delivered s ++ queue s.
Proof.
  intros Hreach Hpc Hne Hev.
  pose proof (reachable_Inv _ _ _ Hreach) as HI.
  pose proof (reachable_Inv2 _ _ _ Hreach) as HI2.
  destruct (listener_reaches_exit s pc) as (k & s' & Hk & Hrun & Hl & Hq & Hd); try done.
  - destruct pc; try done. by destruct (inv_alive s HI e).
  - intros ->. by apply (inv2_get s HI2).
  - exists k, s'. rewrite (filter_all unpackable (queue s)) in Hd
      by apply (inv_payloads s HI). done.
Qed.

Lemma listener_terminates_witness :
  let s := worker_log 1 [PyStr "x"] ∅
             (ParallelLogManager_stop
                (set_pc LOuter (ParallelLogManager_init TerminalLogger w0))).2 in
  exists k s', k <= 9 /\ run (repeat AListener k) s = Some s'
               /\ listener_process s' = Some LExit.
Proof.
  intros s.
  destruct (listener_terminates TerminalLogger w0 s LOuter) as (k & s' & Hk & Hrun & Hl & _);
    try done.
  - apply reachable_run with (ParallelLogManager_init TerminalLogger w0)
      [AStart; AStop; ALog 1 [PyStr "x"] ∅]; [constructor|reflexivity].
  - by exists k, s'.
Defined.

(** X10. A message put after [stop()] has set the event is still delivered,
    as long as the listener has not returned: it is the last one handed to the
    strategy before the listener returns. *)
Theorem straggler_delivered (strategy : LogStrategy) (w : World) (s : Sys) (pc : lpc)
    (h : nat) (args : list pyval) (kwargs : gmap string pyval) :
  reachable (ParallelLogManager_init strategy w) s ->
  listener_process s = Some pc -> pc <> LExit ->
  stop_event s = true ->
  exists k s',
    run (ALog h args kwargs :: repeat AListener k) s = Some s'
    /\ listener_process s' = Some LExit
    /\ last (delivered s') = Some (mkMsg h (Payload args kwargs)).
Proof.
  intros Hreach Hpc Hne Hev.
  assert (Hreach' : reachable (ParallelLogManager_init strategy w)
                      (worker_log h args kwargs s)).
  { by apply reach_step with s (ALog h args kwargs). }
  destruct (listener_terminates strategy w (worker_log h args kwargs s) pc Hreach')
    as (k & s' & _ & Hrun & Hl & _ & Hd); try done.
  exists k, s'. split; [exact Hrun|]. split; [done|].
  rewrite Hd. simpl. unfold WorkerLogger_log. by rewrite app_assoc, last_snoc.
Qed.

Lemma straggler_delivered_witness :
  exists k s',
    run (ALog 2 [PyStr "late"] ∅ :: repeat AListener k)
        (ParallelLogManager_stop
           (set_pc LOuter (ParallelLogManager_init TerminalLogger w0))).2 = Some s'
    /\ listener_process s' = Some LExit
    /\ last (delivered s') = Some (mkMsg 2 (Payload [PyStr "late"] ∅)).
Proof.
  apply (straggler_delivered TerminalLogger w0 _ LOuter); try done.
  apply reachable_run with (ParallelLogManager_init TerminalLogger w0)
    [AStart; AStop]; [constructor|reflexivity].
Defined.

(** X11. After the listener has returned nothing is delivered any more:
    whatever happens next, the deliveries and the environment stay as they
    are, and what workers put stays in the queue. *)
Theorem after_exit_nothing_delivered (s : Sys) (acts : list action) (s' : Sys) :
  listener_process s = Some LExit ->
  run acts s = Some s' ->
  delivered s' = delivered s /\ world s' = world s
  /\ listener_process s' = Some LExit
  /\ exists more, queue s' = queue s ++ more.
Proof.
  revert s. induction acts as [|a acts IH]; intros s Hl Hrun; simpl in Hrun.
  - injection Hrun as <-. split; [done|]. split; [done|]. split; [done|].
    exists []. by rewrite app_nil_r.
  - destruct (exec a s) as [s1|] eqn:Hexec; [|done].
    assert (H1 : delivered s1 = delivered s /\ world s1 = world s
                 /\ listener_process s1 = Some LExit
                 /\ exists more, queue s1 = queue s ++ more).
    { destruct a; simpl in Hexec.
      - injection Hexec as <-. simpl. unfold WorkerLogger_log. eauto 6.
      - rewrite Hl in Hexec. done.
      - destruct (stop_call s); try done. injection Hexec as <-. simpl.
        repeat split; try done. exists []. by rewrite app_nil_r.
      - destruct (stop_call s); try done. rewrite Hl in Hexec. simpl in Hexec.
        injection Hexec as <-. simpl.
        repeat split; try done. exists []. by rewrite app_nil_r.
      - rewrite Hl in Hexec. done. }
    destruct H1 as (Hd1 & Hw1 & Hl1 & more1 & Hq1).
    destruct (IH s1 Hl1 Hrun) as (Hd & Hw & Hl' & more & Hq).
    rewrite Hd, Hw, Hq, Hq1. repeat split; try done.
    exists (more1 ++ more). by rewrite app_assoc.
Qed.

Lemma after_exit_nothing_delivered_witness :
  let s := mkSys TerminalLogger [] true (Some LExit) StopJoining w0 [] [] (Some 0) [] 0 in
  exists s', run [ALog 1 [PyStr "lost"] ∅; AJoin] s = Some s'
             /\ delivered s' = [] /\ stdout (world s') = "".
Proof.
  intros s. eexists. split; [reflexivity|].
  destruct (after_exit_nothing_delivered s [ALog 1 [PyStr "lost"] ∅; AJoin] _
              eq_refl eq_refl) as (Hd & Hw & _).
  split; [exact Hd|]. by rewrite Hw.
Defined.

(** X12. Only the listener writes, and only when it handles a message: every
    other move of the system (a worker's [log], [start()], [stop()], the join,
    the listener's tests and its sleep) leaves the environment and the
    deliveries as they are. *)
Theorem only_the_listener_writes (a : action) (s s' : Sys) :
  exec a s = Some s' ->
  a <> AListener \/ listener_process s <> Some LGet ->
  world s' = world s /\ delivered s' = delivered s.
Proof.
  intros Hexec Hnot. destruct a; simpl in Hexec.
  - by injection Hexec as <-.
  - destruct (listener_process s); [done|]. by injection Hexec as <-.
  - destruct (stop_call s); try done. by injection Hexec as <-.
  - destruct (stop_call s); try done. destruct (listener_process s) as [pc|]; [|done].
    destruct (finished pc); [|done]. by injection Hexec as <-.
  - destruct (listener_process s) as [pc|]; [|done].
    destruct pc; simpl in Hexec; try done.
    + injection Hexec as <-. by destruct (stop_event s).
    + injection Hexec as <-. by destruct (queue s).
    + injection Hexec as <-. by destruct (queue s).
    + by destruct Hnot.
    + by injection Hexec as <-.
Qed.

Lemma only_the_listener_writes_witness :
  world (worker_log 1 [PyStr "x"] ∅ (ParallelLogManager_init TerminalLogger w0)) = w0.
Proof.
  refine (proj1 (only_the_listener_writes (ALog 1 [PyStr "x"] ∅)
    (ParallelLogManager_init TerminalLogger w0) _ eq_refl _)).
  by left.
Defined.

(** X13. The event is set once and never reset: after [stop()] has set it, it
    stays set whatever the workers, the manager and the listener do. *)
Theorem stop_event_stays_set (s : Sys) (acts : list action) (s' : Sys) :
  stop_event s = true -> run acts s = Some s' -> stop_event s' = true.
Proof.
  revert s. induction acts as [|a acts IH]; intros s Hev Hrun; simpl in Hrun.
  - by injection Hrun as <-.
  - destruct (exec a s) as [s1|] eqn:Hexec; [|done].
    apply (IH s1); [|done].
    destruct a; simpl in Hexec.
    + by injection Hexec as <-.
    + destruct (listener_process s); [done|]. by injection Hexec as <-.
    + destruct (stop_call s); try done. by injection Hexec as <-.
    + destruct (stop_call s); try done. destruct (listener_process s) as [pc|]; [|done].
      destruct (finished pc); [|done]. by injection Hexec as <-.
    + destruct (listener_process s) as [pc|]; [|done].
      destruct pc; simpl in Hexec; try done.
      * injection Hexec as <-. by rewrite Hev.
      * injection Hexec as <-. by destruct (queue s).
      * injection Hexec as <-. by destruct (queue s).
      * destruct (queue s); [done|]. by injection Hexec as <-.
      * by injection Hexec as <-.
Qed.

Lemma stop_event_stays_set_witness :
  exists s', run (AStart :: ALog 1 [PyStr "x"] ∅ :: repeat AListener 3)
               (ParallelLogManager_stop (ParallelLogManager_init TerminalLogger w0)).2
             = Some s'
             /\ stop_event s' = true.
Proof.
  eexists. split; [reflexivity|].
  refine (stop_event_stays_set
    (ParallelLogManager_stop (ParallelLogManager_init TerminalLogger w0)).2
    (AStart :: ALog 1 [PyStr "x"] ∅ :: repeat AListener 3) _ _ _); reflexivity.
Defined.

(** X14. A payload that is not a pair never reaches the strategy: whatever
    the strategy, the unpacking raises, the listener prints its report, and
    the standard output and the files are untouched. *)
Theorem malformed_payload_reported (strategy : LogStrategy) (v : pyval) (w : World) :
  exists e,
    deliver strategy (Scalar v) w = (Raise e, w)
    /\ handle_payload strategy (Scalar v) w
       = (Ok tt, record (EvWrite FStderr (report e))
                   (set_stderr (stderr w +:+ report e) w)).
Proof.
  assert (H : exists e, deliver strategy (Scalar v) w = (Raise e, w)).
  { unfold deliver. io_unfold. destruct v as [| |z|str]; simpl; eauto.
    destruct (Nat.ltb (String.length str) 2); [eauto|].
    destruct (Nat.ltb 2 (String.length str)); eauto. }
  destruct H as [e He]. exists e. split; [done|].
  pose proof (handle_payload_cases strategy (Scalar v) w) as H. by rewrite He in H.
Qed.

(** A call [handle.log( *args, **kwargs)]: the handle, [args], [kwargs]. *)
Definition log_action (c : nat * list pyval * gmap string pyval) : action :=
  ALog c.1.1 c.1.2 c.2.

Definition msg_of (c : nat * list pyval * gmap string pyval) : msg :=
  mkMsg c.1.1 (Payload c.1.2 c.2).

Lemma run_logs calls : forall s rest,
  exists s1,
    run (map log_action calls ++ rest) s = run rest s1
    /\ queue s1 = queue s ++ map msg_of calls
    /\ listener_process s1 = listener_process s
    /\ delivered s1 = delivered s
    /\ stop_event s1 = stop_event s.
Proof.
  induction calls as [|c calls IH]; intros s rest.
  - exists s. by rewrite app_nil_r.
  - destruct (IH (worker_log c.1.1 c.1.2 c.2 s) rest) as (s1 & Hrun & Hq & Hl & Hd & Hev).
    exists s1. split; [exact Hrun|]. rewrite Hq, Hl, Hd, Hev. simpl.
    unfold WorkerLogger_log. by rewrite <- app_assoc.
Qed.

(** X15. Messages logged before [start()] are not lost: whatever the handles
    put while no listener runs waits in the queue, and the first pass of the
    listener hands all of it to the strategy in the order of the puts. *)
Theorem pre_start_messages_delivered (strategy : LogStrategy) (w : World)
    (calls : list (nat * list pyval * gmap string pyval)) :
  exists s',
    run (map log_action calls ++ AStart :: repeat AListener (1 + 2 * length calls))
        (ParallelLogManager_init strategy w) = Some s'
    /\ delivered s' = map msg_of calls
    /\ queue s' = [].
Proof.
  destruct (run_logs calls (ParallelLogManager_init strategy w)
              (AStart :: repeat AListener (1 + 2 * length calls)))
    as (s1 & Hrun & Hq & Hl & Hd & Hev).
  simpl in Hq, Hl, Hd, Hev. rewrite Hrun.
  cbn [run]. unfold exec at 1. rewrite Hl.
  cbn [ParallelLogManager_start snd Nat.add repeat run].
  unfold exec at 1. cbn [set_pc listener_process listener_step stop_event]. rewrite Hev.
  set (s2 := set_pc LInner (set_pc LOuter s1)).
  destruct (drain_from_inner (queue s2) s2 eq_refl eq_refl)
    as (s' & Hrun' & _ & Hq' & Hd' & _).
  exists s'. split; [|split; [|done]].
  - replace (length calls) with (length (queue s2)); [exact Hrun'|].
    subst s2. simpl. by rewrite Hq, length_map.
  - rewrite Hd'. subst s2. simpl. rewrite Hd, Hq. simpl.
    apply filter_all. apply Forall_forall. intros m Hm.
    apply list_elem_of_fmap in Hm as (c & -> & _). done.
Qed.

Lemma idle_cycle_once st sc wd hi de sm sl ms :
  run (repeat AListener 3) (mkSys st [] false (Some LOuter) sc wd hi de sm sl ms)
  = Some (mkSys st [] false (Some LOuter) sc wd hi de sm
                (sl ++ [(false, 0)]) (ms + sleep_ms)).
Proof. reflexivity. Qed.

(** X16. With nothing to do the listener polls: from the outer test, with the
    event not set and the queue empty, every three steps (the two tests and the
    sleep) bring it back to the outer test, 50 ms later and with nothing else
    changed. *)
Theorem idle_poll_cycle (k : nat) : forall s : Sys,
  listener_process s = Some LOuter -> stop_event s = false -> queue s = [] ->
  run (repeat AListener (3 * k)) s
  = Some (mkSys (strategy s) [] false (Some LOuter) (stop_call s) (world s)
                (history s) (delivered s) (stop_mark s)
                (sleeps s ++ repeat (false, 0) k) (slept_ms s + 50 * k)).
Proof.
  induction k as [|k IH]; intros [st q ev lp sc wd hi de sm sl ms] Hl Hev Hq;
    simpl in Hl, Hev, Hq; subst q ev lp.
  - simpl. rewrite app_nil_r. do 2 f_equal. lia.
  - replace (3 * S k) with (3 + 3 * k) by lia.
    rewrite repeat_app, run_app, idle_cycle_once, IH by done.
    cbn [strategy stop_call world history delivered stop_mark sleeps slept_ms].
    rewrite <- app_assoc. cbn [app repeat]. unfold sleep_ms.
    do 2 f_equal. lia.
Qed.

Lemma idle_poll_cycle_witness :
  option_map slept_ms
    (run (repeat AListener (3 * 4))
       (set_pc LOuter (ParallelLogManager_init TerminalLogger w0)))
  = Some 200.
Proof.
  rewrite (idle_poll_cycle 4 (set_pc LOuter (ParallelLogManager_init TerminalLogger w0)));
    reflexivity.
Defined.

(** The line [print] writes for a message without keywords. *)
Definition line_of (m : msg) : string :=
  match body m with
  | Payload args _ => String.concat " " (map py_str args) +:+ NL
  | Scalar _ => ""
  end.

Definition lines_of (msgs : list msg) : string :=
  fold_right (fun m rest => line_of m +:+ rest) "" msgs.

(** A message without keywords, as [logger.log("text", value)] puts it. *)
Definition plain (m : msg) : Prop := exists args, body m = Payload args ∅.

Lemma append_empty_r (a : string) : a +:+ "" = a.
Proof.
  induction a as [|ch a IH]; [done|].
  change (String ch (a +:+ "") = String ch a). by rewrite IH.
Qed.

Lemma terminal_log_plain args w :
  TerminalLogger_log args ∅ w
  = if stdout_closed w
    then (Raise (ValueError "I/O operation on closed file."),
          record (EvWriteFailed FStdout) w)
    else let text := String.concat " " (map py_str args) +:+ NL in
         (Ok tt, record (EvWrite FStdout text) (set_stdout (stdout w +:+ text) w)).
Proof. reflexivity. Qed.

Lemma dual_log_plain path args w :
  stdout_closed w = false -> path ∉ locked w ->
  let text := String.concat " " (map py_str args) +:+ NL in
  exists w',
    log (DualLogger TerminalLogger (FileLogger path)) args ∅ w = (Ok tt, w')
    /\ stdout w' = stdout w +:+ text
    /\ files w' !! path = Some (default "" (files w !! path) +:+ text)
    /\ stderr w' = stderr w
    /\ stdout_closed w' = false /\ locked w' = locked w.
Proof.
  intros Hopen Hfree text. cbn [log].
  unfold mbind at 1, IO_bind, io_bind. rewrite terminal_log_plain, Hopen.
  cbv zeta. fold text.
  unfold FileLogger_log, open_write, call_with_keyword, builtin_print, write.
  io_unfold. cbn [locked record set_stdout].
  destruct (decide (path ∈ locked w)); [done|].
  eexists. split; [reflexivity|]. simpl.
  rewrite !lookup_insert_eq. simpl. done.
Qed.

Lemma drain_dual_plain path (msgs : list msg) : forall s,
  strategy s = DualLogger TerminalLogger (FileLogger path) ->
  listener_process s = Some LInner -> queue s = msgs -> Forall plain msgs ->
  stdout_closed (world s) = false -> path ∉ locked (world s) ->
  exists s',
    run (repeat AListener (2 * length msgs)) s = Some s'
    /\ listener_process s' = Some LInner /\ queue s' = []
    /\ stdout (world s') = stdout (world s) +:+ lines_of msgs
    /\ default "" (files (world s') !! path)
       = default "" (files (world s) !! path) +:+ lines_of msgs
    /\ stderr (world s') = stderr (world s).
Proof.
  induction msgs as [|m msgs IH]; intros s Hst Hpc Hq Hplain Hopen Hfree.
  - exists s. simpl. by rewrite !append_empty_r.
  - inversion Hplain as [|? ? [args Hm] Hrest]; subst.
    destruct (dual_log_plain path args (world s) Hopen Hfree)
      as (w' & Hlog & Hout & Hfile & Herr & Hopen' & Hlocked').
    set (s1 := mkSys (strategy s) msgs (stop_event s) (Some LInner) (stop_call s)
                 w' (history s) (delivered s ++ [m]) (stop_mark s) (sleeps s)
                 (slept_ms s)).
    assert (Hh : handle_payload (strategy s) (body m) (world s) = (Ok tt, w')).
    { unfold handle_payload, try_except, deliver. io_unfold.
      rewrite Hm, Hst. simpl unpack. cbn [fst snd]. by rewrite Hlog. }
    assert (E1 : exec AListener s = Some (set_pc LGet s)).
    { unfold exec. rewrite Hpc. cbn [listener_step]. by rewrite Hq. }
    assert (E2 : exec AListener (set_pc LGet s) = Some s1).
    { unfold exec.
      cbn [set_pc listener_process listener_step queue strategy world stop_event
           stop_call history delivered stop_mark sleeps slept_ms].
      rewrite Hq. cbv beta iota zeta. rewrite Hh. cbn [fst snd]. rewrite Hm.
      reflexivity. }
    assert (Hrun1 : run (repeat AListener (2 * length (m :: msgs))) s
                    = run (repeat AListener (2 * length msgs)) s1).
    { replace (2 * length (m :: msgs)) with (S (S (2 * length msgs))) by (simpl; lia).
      by rewrite (run_listener_cons _ _ _ E1), (run_listener_cons _ _ _ E2). }
    destruct (IH s1 Hst eq_refl eq_refl Hrest Hopen')
      as (s' & Hrun & Hl & Hq' & Hout' & Hfile' & Herr').
    { subst s1. cbn [world]. by rewrite Hlocked'. }
    exists s'. rewrite Hrun1. split; [exact Hrun|]. split; [done|]. split; [done|].
    subst s1. cbn [world] in Hout', Hfile', Herr'.
    unfold lines_of in *. cbn [fold_right]. unfold line_of at 1 3. rewrite Hm.
    rewrite Hout', Hfile', Herr', Hout, Hfile, Herr. simpl default.
    rewrite !append_assoc. repeat split; reflexivity.
Qed.

(** X17. End to end through the [DualLogger]: with a writable standard output
    and log file, the listener's pass over a queue of messages without keywords
    appends their lines, in the queue's order, to the standard output and to
    the log file alike, and prints nothing on the standard error. *)
Theorem dual_drain_writes_all_lines (path : string) (s : Sys) :
  strategy s = DualLogger TerminalLogger (FileLogger path) ->
  listener_process s = Some LInner -> Forall plain (queue s) ->
  stdout_closed (world s) = false -> path ∉ locked (world s) ->
  exists s',
    run (repeat AListener (2 * length (queue s))) s = Some s'
    /\ queue s' = []
    /\ stdout (world s') = stdout (world s) +:+ lines_of (queue s)
    /\ default "" (files (world s') !! path)
       = default "" (files (world s) !! path) +:+ lines_of (queue s)
    /\ stderr (world s') = stderr (world s).
Proof.
  intros Hst Hpc Hplain Hopen Hfree.
  destruct (drain_dual_plain path (queue s) s) as (s' & ? & ? & ? & ? & ? & ?); try done.
  by exists s'.
Qed.

Lemma dual_drain_writes_all_lines_witness :
  let s := mkSys (DualLogger TerminalLogger (FileLogger "log.txt"))
             [mkMsg 1 (Payload [PyStr "A"; PyInt 1] ∅); mkMsg 2 (Payload [PyStr "B"] ∅)]
             false (Some LInner) StopNotCalled w0 [] [] None [] 0 in
  exists s', run (repeat AListener 4) s = Some s'
    /\ stdout (world s') = ("A 1" +:+ NL) +:+ ("B" +:+ NL)
    /\ default "" (files (world s') !! "log.txt") = ("A 1" +:+ NL) +:+ ("B" +:+ NL).
Proof.
  intros s.
  assert (Hplain : Forall plain (queue s)).
  { repeat apply List.Forall_cons; [eexists; reflexivity..|apply List.Forall_nil]. }
  destruct (dual_drain_writes_all_lines "log.txt" s eq_refl eq_refl Hplain eq_refl
              (not_elem_of_empty _))
    as (s' & Hrun & _ & Hout & Hfile & _).
  exists s'. split; [exact Hrun|]. split; [exact Hout|exact Hfile].
Defined.

(** * Further properties of the log parser *)

Definition newline : ascii := "010"%char.
Definition carriage_return : ascii := "013"%char.

(** A line as [readlines] returns it: text without a newline, then a newline;
    only the last line of a file may lack it, and then it is not empty. *)
Definition well_formed_line (line : list ascii) : Prop :=
  exists text, (newline ∉ text)
    /\ (line = text ++ [newline] \/ (line = text /\ text <> [])).

Lemma elem_of_rev {A} (a : A) (l : list A) : a ∈ rev l <-> a ∈ l.
Proof. rewrite !list_elem_of_In. symmetry. apply in_rev. Qed.

Lemma split_lines_concat s : forall cur,
  concat (split_lines s cur) = rev cur ++ s.
Proof.
  induction s as [|a s IH]; intros cur; simpl.
  - destruct cur; simpl; by rewrite ?app_nil_r.
  - destruct (Ascii.eqb a "010") eqn:Ha; simpl; rewrite IH; simpl;
      by rewrite <- app_assoc.
Qed.

Lemma split_lines_well_formed s : forall cur,
  newline ∉ cur -> Forall well_formed_line (split_lines s cur).
Proof.
  induction s as [|a s IH]; intros cur Hcur; simpl.
  - destruct cur as [|c cur]; [constructor|].
    constructor; [|constructor]. exists (rev (c :: cur)). split.
    + by rewrite elem_of_rev.
    + right. split; [done|]. simpl. by destruct (rev cur).
  - destruct (Ascii.eqb a "010") eqn:Ha.
    + apply Ascii.eqb_eq in Ha as ->. constructor.
      * exists (rev cur). split; [by rewrite elem_of_rev|]. by left.
      * apply IH. apply not_elem_of_nil.
    + apply IH. apply Ascii.eqb_neq in Ha. rewrite elem_of_cons.
      intros [Heq|Hin]; [|done]. by apply Ha.
Qed.

Lemma universal_newlines_no_cr_aux n : forall s,
  length s <= n -> carriage_return ∉ universal_newlines s.
Proof.
  induction n as [|n IH]; intros s Hlen.
  - destruct s; [apply not_elem_of_nil|simpl in Hlen; lia].
  - destruct s as [|a s]; [apply not_elem_of_nil|]. simpl in Hlen. simpl.
    destruct (Ascii.eqb a "013") eqn:Ha.
    + destruct s as [|b s].
      * rewrite elem_of_cons. intros [?|?]; [done|]. by apply not_elem_of_nil in H.
      * destruct (Ascii.eqb b "010"); rewrite elem_of_cons; intros [?|Hin]; try done.
        -- revert Hin. apply IH. simpl in Hlen. lia.
        -- revert Hin. apply (IH (b :: s)). simpl in *. lia.
    + apply Ascii.eqb_neq in Ha. rewrite elem_of_cons. intros [Heq|Hin].
      * by apply Ha.
      * revert Hin. apply IH. lia.
Qed.

(** X18. [readlines] loses nothing and cuts at the newlines: the lines put end
    to end are the text of the file (after the translation of [\r\n] and
    [\r] to [\n]), no line holds a carriage return, and every line is text
    without a newline followed by one newline, which only a non-empty last
    line may lack. *)
Theorem readlines_round_trip (content : string) :
  concat (readlines content) = universal_newlines (txt content)
  /\ (carriage_return ∉ concat (readlines content))
  /\ Forall well_formed_line (readlines content).
Proof.
  unfold readlines. split; [|split].
  - by rewrite split_lines_concat.
  - rewrite split_lines_concat. simpl.
    by apply (universal_newlines_no_cr_aux (length (txt content))).
  - apply split_lines_well_formed. apply not_elem_of_nil.
Qed.

(** The lines the loop of [parse_log_file] reads something from. *)
Definition relevant (line : list ascii) : Prop :=
  contains (txt "NEW BEST") line = true /\ is_Some (search pattern line).

#[local] Instance relevant_dec line : Decision (relevant line).
Proof. unfold relevant. apply _. Defined.

Lemma parse_loop_filter lines : forall data run_count last_time,
  parse_loop (filter relevant lines) data run_count last_time
  = parse_loop lines data run_count last_time.
Proof.
  induction lines as [|line rest IH]; intros data rc lt; [done|].
  rewrite filter_cons. destruct (decide (relevant line)) as [[Hc Hs]|Hn].
  - cbn [parse_loop]. rewrite Hc. destruct Hs as [m Hm]. rewrite Hm.
    destruct (py_float (group m "fitness")); [|done].
    destruct (py_float (group m "time")); [|done]. apply IH.
  - rewrite IH. cbn [parse_loop].
    destruct (contains (txt "NEW BEST") line) eqn:Hc; [|done].
    destruct (search pattern line) as [m|] eqn:Hm; [|done].
    destruct Hn. split; [done|]. by exists m.
Qed.

(** X19. Only the lines that contain [NEW BEST] and match the pattern count:
    dropping all the other lines of a log changes neither the entries returned
    nor the exception raised. *)
Theorem other_lines_are_ignored (lines : list (list ascii)) :
  parse_lines (filter relevant lines) = parse_lines lines.
Proof. apply parse_loop_filter. Qed.

(** No whitespace at either end. *)
Definition trimmed (s : list ascii) : Prop :=
  (forall a, head s = Some a -> is_space a = false)
  /\ (forall a, last s = Some a -> is_space a = false).

Lemma lstrip_head s a : head (lstrip s) = Some a -> is_space a = false.
Proof.
  induction s as [|b s IH]; simpl; [done|].
  destruct (is_space b) eqn:Hb; [done|]. simpl. by intros [= <-].
Qed.

Lemma lstrip_suffix s : exists pre, s = pre ++ lstrip s.
Proof.
  induction s as [|b s [pre IH]]; simpl; [by exists []|].
  destruct (is_space b).
  - exists (b :: pre). simpl. by rewrite <- IH.
  - by exists [].
Qed.

Lemma last_rev {A} (l : list A) : last (rev l) = head l.
Proof. destruct l as [|a l]; [done|]. simpl. by rewrite last_snoc. Qed.

Lemma head_rev {A} (l : list A) : head (rev l) = last l.
Proof. by rewrite <- last_rev, rev_involutive. Qed.

Lemma last_app_nonempty {A} (l1 l2 : list A) :
  l2 <> [] -> last (l1 ++ l2) = last l2.
Proof.
  intros Hne. destruct l2 as [|x l2 _] using rev_ind; [done|].
  by rewrite app_assoc, !last_snoc.
Qed.

Lemma strip_trimmed s : trimmed (strip s).
Proof.
  unfold strip, trimmed. split; intros a Ha.
  - rewrite head_rev in Ha.
    destruct (lstrip_suffix (rev (lstrip s))) as [pre Hpre].
    destruct (lstrip (rev (lstrip s))) as [|x l] eqn:Hl; [done|].
    assert (Hlast : last (rev (lstrip s)) = Some a).
    { rewrite Hpre, last_app_nonempty by done. done. }
    rewrite last_rev in Hlast. by apply lstrip_head in Hlast.
  - rewrite last_rev in Ha. by apply lstrip_head in Ha.
Qed.

Lemma extracted_elem lines : forall data e,
  extracted lines data -> e ∈ data ->
  exists line, line ∈ lines /\ entry_of_line line e.
Proof.
  induction lines as [|line rest IH]; intros data e Hex Hin; simpl in Hex.
  - subst. by apply not_elem_of_nil in Hin.
  - destruct Hex as [(_ & e0 & data' & -> & He0 & Hrest)|(_ & Hrest)].
    + apply elem_of_cons in Hin as [->|Hin].
      * exists line. split; [left|done].
      * destruct (IH _ _ Hrest Hin) as (l & Hl & He). exists l. split; [by right|done].
    + destruct (IH _ _ Hrest Hin) as (l & Hl & He). exists l. split; [by right|done].
Qed.

(** X20. The names in the result are trimmed: no entry's name starts or ends
    with a whitespace character. *)
Theorem names_are_trimmed (lines : list (list ascii)) (data : list entry) (e : entry) :
  parse_lines lines = Ok data -> e ∈ data -> trimmed (meta_name e).
Proof.
  intros Hparse Hin.
  destruct (parse_loop_spec lines [] 1 (S754_zero false) data Hparse)
    as (new & -> & Hex & _); [done|].
  destruct (extracted_elem lines _ e Hex Hin) as (line & _ & m & _ & -> & _).
  apply strip_trimmed.
Qed.

Lemma names_are_trimmed_witness : trimmed (txt "GA").
Proof.
  refine (names_are_trimmed [txt " GA NEW BEST: 7. - Time: 1.5s"]
            [mkEntry (txt "GA") (S754_finite false 7881299347898368 (-50))
                     (S754_finite false 6755399441055744 (-52)) 1]
            (mkEntry (txt "GA") (S754_finite false 7881299347898368 (-50))
                     (S754_finite false 6755399441055744 (-52)) 1) _ _).
  - vm_compute. reflexivity.
  - left.
Defined.

(** The number of dots of a text, and whether it holds a digit. *)
Definition dots (t : list ascii) : nat :=
  length (filter (fun a => a = "."%char) t).

Definition has_digit (t : list ascii) : bool := existsb digit t.

Lemma digit_not_dot a : digit a = true -> a <> "."%char.
Proof. intros H ->. vm_compute in H. discriminate H. Qed.

Lemma digit_not_minus a : digit_or_dot a = true -> Ascii.eqb a "-" = false.
Proof.
  intros H. apply Ascii.eqb_neq. intros ->. vm_compute in H. discriminate H.
Qed.

Lemma decimal_accepts s : forall mant scale seen any,
  all_in digit_or_dot s ->
  is_Some (decimal s mant scale seen any)
  <-> dots s + (if seen then 1 else 0) <= 1
      /\ (any = true \/ has_digit s = true).
Proof.
  induction s as [|a s IH]; intros mant scale seen any Hall.
  - simpl. unfold dots. simpl. destruct any, seen; simpl; split; try (intros [? ?]; done);
      try (intros _; split; [lia|auto]); try (intros [_ [?|?]]; done);
      try (intros [? _]; lia); intros [? Hx]; try lia; destruct Hx; done.
  - inversion Hall as [|? ? Ha Hrest]; subst. cbn [decimal]. unfold has_digit, dots.
    cbn [existsb]. rewrite filter_cons.
    destruct (digit a) eqn:Hd.
    + rewrite decide_False by (by apply digit_not_dot).
      rewrite (IH _ _ _ _ Hrest). unfold dots, has_digit. simpl. tauto.
    + unfold digit_or_dot in Ha. rewrite Hd in Ha. simpl in Ha.
      rewrite Ha. apply Ascii.eqb_eq in Ha as ->.
      rewrite decide_True by done. cbn [length orb].
      destruct seen; cbn [negb andb].
      * split; [by intros [? ?]|]. intros [? _]. lia.
      * rewrite (IH _ _ _ _ Hrest). unfold dots, has_digit.
        split; intros [? ?]; (split; [lia|done]).
Qed.

Lemma py_float_unsigned t :
  all_in digit_or_dot t ->
  is_Ok (py_float t) = true <-> is_Some (decimal t 0 0 false false).
Proof.
  intros Hall. unfold py_float.
  destruct t as [|a t].
  - simpl. split; [done|by intros [? ?]].
  - inversion Hall as [|? ? Ha _]; subst. rewrite (digit_not_minus a Ha).
    destruct (decimal (a :: t) 0 0 false false) as [[[|m] sc]|]; simpl;
      split; try done; by intros [? ?].
Qed.

Lemma py_float_signed t :
  is_Ok (py_float ("-"%char :: t)) = true <-> is_Some (decimal t 0 0 false false).
Proof.
  unfold py_float. rewrite Ascii.eqb_refl.
  destruct (decimal t 0 0 false false) as [[[|m] sc]|]; simpl;
    split; try done; by intros [? ?].
Qed.

(** X21. Which of the numbers the pattern captures [float] accepts: a run of
    digits and dots, with or without the minus sign, is converted exactly when
    it has a digit and at most one dot; every other one raises [ValueError]. *)
Theorem py_float_accepts_iff (t : list ascii) :
  all_in digit_or_dot t ->
  (is_Ok (py_float t) = true <-> has_digit t = true /\ dots t <= 1)
  /\ (is_Ok (py_float ("-"%char :: t)) = true <-> has_digit t = true /\ dots t <= 1).
Proof.
  intros Hall. rewrite py_float_signed, (py_float_unsigned t Hall).
  rewrite (decimal_accepts t 0 0 false false Hall).
  assert (H : dots t + 0 <= 1 /\ (false = true \/ has_digit t = true)
              <-> has_digit t = true /\ dots t <= 1).
  { split.
    - intros [? [?|?]]; [done|]. split; [done|lia].
    - intros [? ?]. split; [lia|by right]. }
  by rewrite H.
Qed.

Lemma py_float_accepts_iff_witness :
  is_Ok (py_float (txt "12.5")) = true /\ is_Ok (py_float (txt "1.2.3")) = false.
Proof.
  split.
  - apply (proj1 (py_float_accepts_iff (txt "12.5") ltac:(repeat constructor))).
    split; [reflexivity|]. vm_compute. lia.
  - destruct (is_Ok (py_float (txt "1.2.3"))) eqn:H; [|reflexivity].
    apply (proj1 (py_float_accepts_iff (txt "1.2.3") ltac:(repeat constructor))) in H.
    destruct H as [_ H]. vm_compute in H. lia.
Defined.
